(** * AEB co-simulation bridge (Car_to_Bicyclist_Failed.py)

    Shallow embedding of the core of [Car_to_Bicyclist_Failed.py]: the
    time-to-collision computation, the telemetry codec and the socket
    helpers [send_data] / [receive_data], the control mapper
    [control_ego] and the body of the [while True] loop of [main].

    Python's [float] is IEEE-754 binary64: it is modelled by Rocq's
    primitive [float], whose operations are specified by [SpecFloat]
    (round to nearest, ties to even).  The only idealisation is that
    Rocq has a single NaN (no payload).

    The socket and the simulated world are external: what they hand to
    the program is given by scripts (lists of outcomes) that the model
    consumes in order.  Scene set-up, HUD drawing, plotting and the
    spectator camera have no part in the decisions and are left out.

    Organisation: the embedding of the program; the notions used in the
    statements; then the properties, with the facts on binary64 rounding
    that they rest on in module [Binary64]. *)

From Stdlib Require Import Floats ZArith Lia List Bool.
From Stdlib.Strings Require Import Byte.
Import ListNotations.

Set Warnings "-inexact-float".

Local Open Scope float_scope.

(** ** Python values and built-ins *)

(** The exception classes that the modelled code can meet; all of them
    derive from [Exception]. *)
Inductive exn : Type :=
| socket_timeout      (* socket.timeout *)
| OSError             (* broken pipe, connection reset, ... *)
| ValueError
| OverflowError
| ZeroDivisionError
| struct_error.       (* struct.error *)

Definition exn_eqb (a b : exn) : bool :=
  match a, b with
  | socket_timeout, socket_timeout | OSError, OSError
  | ValueError, ValueError | OverflowError, OverflowError
  | ZeroDivisionError, ZeroDivisionError | struct_error, struct_error => true
  | _, _ => false
  end.

(** Result of evaluating a Python expression or statement. *)
Inductive outcome (A : Type) : Type :=
| Ret (a : A)
| Raise (e : exn).
Arguments Ret {A} a.
Arguments Raise {A} e.

(** [min(a, b)] and [max(a, b)] of the built-ins: the first argument is
    kept unless the second compares strictly below (above) it. *)
Definition py_min (a b : float) : float := if b <? a then b else a.
Definition py_max (a b : float) : float := if a <? b then b else a.

(** [x / y] on floats raises on a zero divisor (of either sign). *)
Definition py_truediv (x y : float) : outcome float :=
  if y =? 0 then Raise ZeroDivisionError else Ret (x / y).

(** [round(x)] with one argument: nearest integer, ties to even;
    raises on NaN and on the infinities. *)
Definition round_half_even (m : Z) (k : Z) : Z :=
  let q := (m / 2 ^ k)%Z in
  let r := (m mod 2 ^ k)%Z in
  match (2 * r ?= 2 ^ k)%Z with
  | Lt => q
  | Gt => (q + 1)%Z
  | Eq => if Z.even q then q else (q + 1)%Z
  end.

Definition py_round (x : float) : outcome Z :=
  match Prim2SF x with
  | S754_nan => Raise ValueError
  | S754_infinity _ => Raise OverflowError
  | S754_zero _ => Ret 0%Z
  | S754_finite s m e =>
      Ret (cond_Zopp s (if (0 <=? e)%Z then (Zpos m * 2 ^ e)%Z
                        else round_half_even (Zpos m) (- e)))
  end.

(** [bool(n)] on an int. *)
Definition py_bool (n : Z) : bool := negb (n =? 0)%Z.

(** ** Effects: the socket, the wire and the console

    A computation threads an [io] state and either returns or raises;
    the state reached when it raises is kept, as in Python. *)

(** Outcome of one [conn.sendall(b)]: the bytes are written, or the call
    raises after some prefix of them went out. *)
Inductive sendall_result : Type :=
| SendOk
| SendFails (e : exn) (written : nat).

(** Outcome of one [conn.recv(8)]: the bytes handed over, or an
    exception ([socket_timeout] when the deadline passes). *)
Inductive recv_result : Type :=
| RecvBytes (packet : list byte)
| RecvFails (e : exn).

Record telemetry : Type := {
  MIO_Distance : float;
  MIO_Velocity : float;
  Ego_Velocity : float
}.

Record command_frame : Type := {
  egoCarStop : bool;
  FCW_Activate : bool;
  Deceleration : float;
  AEB_Status : bool;
  Emergency_Brake : bool
}.

(** Lines printed on the console, kept as structured events. *)
Inductive log_line : Type :=
| LogSend (data : telemetry)            (* [SEND] ... *)
| LogRecv (sim_data : command_frame)    (* [RECV] ... *)
| LogErrSend (e : exn)                  (* [ERREUR SEND]: ... *)
| LogErrRecv (e : exn)                  (* [ERREUR RECV]: ... *)
| LogTcpError (e : exn)                 (* [TCP ERROR]: ... *)
| LogCollision.                         (* [COLLISION] DETECTED! *)

Record io : Type := {
  sendall_script : list sendall_result;
  recv_script : list recv_result;
  wire_out : list byte;
  stdout : list log_line
}.

Definition M (A : Type) : Type := io -> outcome A * io.

Definition ret {A} (a : A) : M A := fun s => (Ret a, s).
Definition raise {A} (e : exn) : M A := fun s => (Raise e, s).
Definition bind {A B} (c : M A) (k : A -> M B) : M B :=
  fun s => match c s with
           | (Ret a, s') => k a s'
           | (Raise e, s') => (Raise e, s')
           end.
Definition lift {A} (o : outcome A) : M A := fun s => (o, s).

(** [try: body / except Exception as e: handler e]. *)
Definition try_except {A} (body : M A) (handler : exn -> M A) : M A :=
  fun s => match body s with
           | (Ret a, s') => (Ret a, s')
           | (Raise e, s') => handler e s'
           end.

Declare Scope py_scope.
Delimit Scope py_scope with py.
Notation "x <- c ;; k" := (bind c (fun x => k))
  (at level 61, c at next level, right associativity) : py_scope.
Notation "c ;; k" := (bind c (fun _ => k))
  (at level 61, right associativity) : py_scope.
Local Open Scope py_scope.

Definition print (l : log_line) : M unit :=
  fun s => (Ret tt, {| sendall_script := sendall_script s;
                       recv_script := recv_script s;
                       wire_out := wire_out s;
                       stdout := stdout s ++ [l] |}).

(** A connected socket; [settimeout] records the deadline of blocking
    calls. *)
Record socket : Type := { gettimeout : option float }.

(** [conn.sendall(b)]: an exhausted script means the call succeeds. *)
Definition sendall (conn : socket) (b : list byte) : M unit :=
  fun s =>
    match sendall_script s with
    | [] | SendOk :: _ =>
        (Ret tt, {| sendall_script := tl (sendall_script s);
                    recv_script := recv_script s;
                    wire_out := wire_out s ++ b;
                    stdout := stdout s |})
    | SendFails e written :: rest =>
        (Raise e, {| sendall_script := rest;
                     recv_script := recv_script s;
                     wire_out := wire_out s ++ firstn written b;
                     stdout := stdout s |})
    end.

(** [conn.recv(bufsize)]: at most [bufsize] bytes are returned; an
    exhausted script means no data before the deadline. *)
Definition recv (conn : socket) (bufsize : nat) : M (list byte) :=
  fun s =>
    let s' := {| sendall_script := sendall_script s;
                 recv_script := tl (recv_script s);
                 wire_out := wire_out s;
                 stdout := stdout s |} in
    match recv_script s with
    | [] => (Raise socket_timeout, s')
    | RecvBytes packet :: _ => (Ret (firstn bufsize packet), s')
    | RecvFails e :: _ => (Raise e, s')
    end.

(** ** Telemetry codec: [struct.pack('d', x)] and [struct.unpack('d', b)]

    Format ['d'] is the 8-byte IEEE-754 binary64 image of the float in
    native byte order; the byte order of the host (little-endian on the
    x86-64 machines the simulator runs on) is used on both paths. *)

Definition sign_bit (s : bool) : Z := if s then (2 ^ 63)%Z else 0%Z.

(** The 64-bit image: sign (1 bit), biased exponent (11 bits), fraction
    (52 bits). *)
Definition bits_of_SF (f : spec_float) : Z :=
  match f with
  | S754_zero s => sign_bit s
  | S754_infinity s => (sign_bit s + 2047 * 2 ^ 52)%Z
  | S754_nan => (2047 * 2 ^ 52 + 2 ^ 51)%Z
  | S754_finite s m e =>
      (sign_bit s +
       (if (Zpos m <? 2 ^ 52)%Z then Zpos m
        else (e + 1075) * 2 ^ 52 + (Zpos m - 2 ^ 52)))%Z
  end.

Definition SF_of_bits (x : Z) : spec_float :=
  let s := Z.testbit x 63 in
  let ex := ((x / 2 ^ 52) mod 2 ^ 11)%Z in
  let fr := (x mod 2 ^ 52)%Z in
  if (ex =? 0)%Z then
    if (fr =? 0)%Z then S754_zero s else S754_finite s (Z.to_pos fr) (-1074)
  else if (ex =? 2047)%Z then
    if (fr =? 0)%Z then S754_infinity s else S754_nan
  else S754_finite s (Z.to_pos (fr + 2 ^ 52)) (ex - 1075).

Definition byte_of_Z (z : Z) : byte :=
  match Byte.of_N (Z.to_N (z mod 256)) with
  | Some b => b
  | None => x00
  end.

Definition Z_of_byte (b : byte) : Z := Z.of_N (Byte.to_N b).

(** Little-endian image of an unsigned integer on [n] bytes, and back. *)
Fixpoint le_bytes (n : nat) (z : Z) : list byte :=
  match n with
  | O => []
  | S n' => byte_of_Z z :: le_bytes n' (z / 256)
  end.

Fixpoint le_int (bs : list byte) : Z :=
  match bs with
  | [] => 0%Z
  | b :: bs' => (Z_of_byte b + 256 * le_int bs')%Z
  end.

Definition pack_d (x : float) : list byte :=
  le_bytes 8 (bits_of_SF (Prim2SF x)).

Definition unpack_d (b : list byte) : outcome float :=
  if Nat.eqb (length b) 8 then Ret (SF2Prim (SF_of_bits (le_int b)))
  else Raise struct_error.

(** ** The program *)

(** [calculate_ttc] (lines 17-21). *)
Definition calculate_ttc (distance relative_velocity : float) : outcome float :=
  if relative_velocity <=? 0 then Ret infinity
  else py_truediv distance relative_velocity.

(** Outcome of [sock.accept()] in [setup_tcp_server]. *)
Inductive accept_result : Type :=
| AcceptOk
| AcceptFails (e : exn).

Inductive server_socket : Type := ServerSocket (port : Z).

(** [setup_tcp_server] (lines 23-37): the accepted connection gets a
    0.05 s deadline; a failed accept gives [(None, None)]. *)
Definition setup_tcp_server (port : Z) (a : accept_result)
  : option socket * option server_socket :=
  match a with
  | AcceptOk => (Some {| gettimeout := Some 0.05 |}, Some (ServerSocket port))
  | AcceptFails _ => (None, None)
  end.

(** [send_data] (lines 39-45). *)
Definition send_data (conn : socket) (data : telemetry) : M unit :=
  try_except
    (sendall conn (pack_d (MIO_Distance data)) ;;
     sendall conn (pack_d (MIO_Velocity data)) ;;
     sendall conn (pack_d (Ego_Velocity data)) ;;
     print (LogSend data))
    (fun e => print (LogErrSend e)).

(** The dictionary returned by both handlers of [receive_data] and bound
    to [default_sim_data] in [main]. *)
Definition default_sim_data : command_frame :=
  {| egoCarStop := false;
     FCW_Activate := false;
     Deceleration := 0.0;
     AEB_Status := false;
     Emergency_Brake := false |}.

(** The loop [for _ in range(5)] of [receive_data] (lines 50-54). *)
Fixpoint recv_doubles (conn : socket) (n : nat) (data : list float)
  : M (list float) :=
  match n with
  | O => ret data
  | S n' =>
      packet <- recv conn 8 ;;
      if Nat.ltb (length packet) 8 then raise ValueError
      else v <- lift (unpack_d packet) ;;
           recv_doubles conn n' (data ++ [v])
  end.

(** [bool(round(x))]. *)
Definition bool_round (x : float) : M bool :=
  n <- lift (py_round x) ;; ret (py_bool n).

(** [receive_data] (lines 47-81): [except socket.timeout] is tried
    first, then [except Exception].  [data] holds five values when the
    loop returns, so [data[i]] is the [i]-th of them. *)
Definition receive_data (conn : socket) : M command_frame :=
  try_except
    (data <- recv_doubles conn 5 [] ;;
     b0 <- bool_round (nth 0 data nan) ;;
     b1 <- bool_round (nth 1 data nan) ;;
     b3 <- bool_round (nth 3 data nan) ;;
     b4 <- bool_round (nth 4 data nan) ;;
     let sim_data := {| egoCarStop := b0;
                        FCW_Activate := b1;
                        Deceleration := nth 2 data nan;
                        AEB_Status := b3;
                        Emergency_Brake := b4 |} in
     print (LogRecv sim_data) ;;
     ret sim_data)
    (fun e =>
       if exn_eqb e socket_timeout then ret default_sim_data
       else print (LogErrRecv e) ;; ret default_sim_data).

(** [carla.VehicleControl]; fields not given to the constructor are 0. *)
Record VehicleControl : Type := {
  throttle : float;
  steer : float;
  brake : float
}.

(** [control_cyclist] (lines 165-169): the control applied to the
    cyclist. *)
Definition control_cyclist (sim_time : float) : VehicleControl :=
  if 2.0 <? sim_time then {| throttle := 0.4; steer := 0.0; brake := 0.0 |}
  else {| throttle := 0.0; steer := 0.0; brake := 1.0 |}.

(** [control_ego] (lines 171-187); the [ego] argument is not used by the
    function. *)
Definition control_ego (sim_time : float) (sim_data : command_frame)
    (collision : bool) : VehicleControl :=
  let base_throttle := 0.5 in
  if Emergency_Brake sim_data || egoCarStop sim_data || collision then
    {| throttle := 0.0; steer := 0.0; brake := 1.0 |}
  else if 2.0 <? sim_time then
    let decel_factor := py_min 0.8 (Deceleration sim_data) in
    {| throttle := py_max 0.6 (base_throttle - decel_factor);
       steer := 0.0;
       brake := py_min 0.8 decel_factor |}
  else
    {| throttle := 0.0; steer := 0.0; brake := 1.0 |}.

(** The [else] branch of the TCP test in [main] (lines 381-389): the
    decision synthesized locally when no connection is active. *)
Definition local_sim_data (distance relative_velocity : float)
  : outcome command_frame :=
  if (distance <? 15.0) && (0 <? relative_velocity) then
    if distance <? 8.0 then
      match py_truediv 15.0 distance with
      | Ret q =>
          Ret {| egoCarStop := false;
                 FCW_Activate := false;
                 Deceleration := py_min 0.8 q;
                 AEB_Status := true;
                 Emergency_Brake := true |}
      | Raise e => Raise e
      end
    else
      Ret {| egoCarStop := false;
             FCW_Activate := false;
             Deceleration := 0.0;
             AEB_Status := true;
             Emergency_Brake := false |}
  else Ret default_sim_data.

(** State owned by [main] across iterations. *)
Record loop_state : Type := {
  tcp_active : bool;
  conn : option socket;
  sim_time : float;
  collision : bool
}.

(** What the world and the window hand to one iteration. *)
Record world_reading : Type := {
  quit_event : bool;          (* a pygame.QUIT event is pending *)
  w_distance : float;         (* ego.get_location().distance(...) *)
  w_ego_speed : float;        (* get_speed(ego) *)
  w_cyclist_speed : float     (* get_speed(cyclist) *)
}.

(** The values shown on the HUD at the end of an iteration. *)
Record snapshot : Type := {
  hud_time : float;
  hud_distance : float;
  hud_ttc : float;
  hud_relative_velocity : float;
  hud_cyclist_ctrl : VehicleControl;
  hud_ctrl : VehicleControl;
  hud_sim_data : command_frame;
  hud_collision : bool;
  hud_tcp_active : bool
}.

Inductive tick_result : Type :=
| Returned                                     (* [return] on pygame.QUIT *)
| Continue (st : loop_state) (hud : snapshot). (* next iteration *)

(** The state of [main] when the loop is entered (lines 325-336). *)
Definition initial_state (a : accept_result) : loop_state :=
  let '(c, _) := setup_tcp_server 9001 a in
  {| tcp_active := match c with Some _ => true | None => false end;
     conn := c;
     sim_time := 0.0;
     collision := false |}.

(** [if tcp_active and conn]. *)
Definition connected (st : loop_state) : option socket :=
  if tcp_active st then conn st else None.

(** One iteration of [while True] (lines 350-471). *)
Definition tick (st : loop_state) (w : world_reading) : M tick_result :=
  if quit_event w then ret Returned
  else
    let sim_time := sim_time st + 0.05 in
    let cyclist_ctrl := control_cyclist sim_time in
    let distance := w_distance w in
    let ego_speed := w_ego_speed w in
    let cyclist_speed := w_cyclist_speed w in
    let relative_velocity := ego_speed - cyclist_speed in
    ttc <- lift (calculate_ttc distance relative_velocity) ;;
    link <-
      match connected st with
      | Some c =>
          try_except
            (send_data c {| MIO_Distance := distance;
                            MIO_Velocity := cyclist_speed;
                            Ego_Velocity := ego_speed |} ;;
             sim_data <- receive_data c ;;
             ret (tcp_active st, sim_data))
            (fun e => print (LogTcpError e) ;;
                      ret (false, default_sim_data))
      | None =>
          sim_data <- lift (local_sim_data distance relative_velocity) ;;
          ret (tcp_active st, sim_data)
      end ;;
    let '(tcp_active', sim_data) := link in
    let ctrl := control_ego sim_time sim_data (collision st) in
    collision' <-
      (if (distance <? 2.5) && negb (collision st)
       then print LogCollision ;; ret true
       else ret (collision st)) ;;
    ret (Continue
           {| tcp_active := tcp_active';
              conn := conn st;
              sim_time := sim_time;
              collision := collision' |}
           {| hud_time := sim_time;
              hud_distance := distance;
              hud_ttc := ttc;
              hud_relative_velocity := relative_velocity;
              hud_cyclist_ctrl := cyclist_ctrl;
              hud_ctrl := ctrl;
              hud_sim_data := sim_data;
              hud_collision := collision';
              hud_tcp_active := tcp_active' |}).

(** The loop over the readings of a run: the list of the states and HUD
    values of the completed iterations; it ends when the readings end,
    on [return], or when an exception leaves the loop. *)
Fixpoint main_loop (st : loop_state) (ws : list world_reading) (s : io)
  : list (loop_state * snapshot) :=
  match ws with
  | [] => []
  | w :: ws' =>
      match tick st w s with
      | (Ret (Continue st' hud), s') => (st', hud) :: main_loop st' ws' s'
      | (Ret Returned, _) => []
      | (Raise _, _) => []
      end
  end.

(** ** Notions used in the statements

    These are not part of the program: they name what the properties
    below say about it. *)

(** Number of bytes that successive [recv(8)] calls hand over before the
    first call that raises (a timeout included). *)
Fixpoint arrived (script : list recv_result) : nat :=
  match script with
  | RecvBytes packet :: rest => length (firstn 8 packet) + arrived rest
  | _ => 0
  end.

(** A byte stream delivered in packets of 8 bytes. *)
Fixpoint packets (n : nat) (stream : list byte) : list recv_result :=
  match n with
  | O => []
  | S n' => RecvBytes (firstn 8 stream) :: packets n' (skipn 8 stream)
  end.

(** A console and wire with nothing scripted: every [sendall] succeeds
    and every [recv] times out. *)
Definition quiet : io :=
  {| sendall_script := []; recv_script := []; wire_out := []; stdout := [] |}.

(** The same state with another script of [recv] outcomes. *)
Definition with_recv (script : list recv_result) (s : io) : io :=
  {| sendall_script := sendall_script s;
     recv_script := script;
     wire_out := wire_out s;
     stdout := stdout s |}.

(** The conditions under which [control_ego] is expected to hold the
    vehicle at full brake. *)
Definition full_brake_condition (sim_time : float) (sim_data : command_frame)
    (collision : bool) : bool :=
  negb (2.0 <? sim_time) || Emergency_Brake sim_data || egoCarStop sim_data
  || collision.

(** Both actuator commands lie in [0, 1]. *)
Definition in_unit_range (ctrl : VehicleControl) : bool :=
  (0 <=? throttle ctrl) && (throttle ctrl <=? 1)
  && (0 <=? brake ctrl) && (brake ctrl <=? 1).

(** ** The real-time plotter (class [RealTimePlotter], lines 189-300)

    Only the bookkeeping is modelled: the five [deque(maxlen=max_points)]
    and the [plotting_enabled] flag.  Whether the matplotlib calls of
    [__init__] and [_update_plots] succeed is given from outside. *)

(** [d.append(x)] on a [deque(maxlen=maxlen)]: the item is added on the
    right and, when the bound is exceeded, the leftmost item is
    dropped. *)
Definition deque_append (maxlen : nat) (d : list float) (x : float)
  : list float :=
  let d' := d ++ [x] in
  if Nat.ltb maxlen (length d') then tl d' else d'.

Record RealTimePlotter : Type := {
  max_points : nat;
  times : list float;
  distances : list float;
  ttc_values : list float;
  ego_speeds : list float;
  cyclist_speeds : list float;
  plotting_enabled : bool
}.

(** [RealTimePlotter(max_points)] (lines 190-240); [figure_ok] tells
    whether the figure could be created. *)
Definition RealTimePlotter_init (max_points : nat) (figure_ok : bool)
  : RealTimePlotter :=
  {| max_points := max_points;
     times := [];
     distances := [];
     ttc_values := [];
     ego_speeds := [];
     cyclist_speeds := [];
     plotting_enabled := figure_ok |}.

(** [_update_plots] (lines 260-300): a failure of the drawing calls is
    caught and switches plotting off. *)
Definition _update_plots (self : RealTimePlotter) (draw_ok : bool)
  : RealTimePlotter :=
  if draw_ok then self
  else {| max_points := max_points self;
          times := times self;
          distances := distances self;
          ttc_values := ttc_values self;
          ego_speeds := ego_speeds self;
          cyclist_speeds := cyclist_speeds self;
          plotting_enabled := false |}.

(** The arguments of one call of [update], with the outcome of the
    drawing calls should they be made. *)
Record sample : Type := {
  time_val : float;
  s_distance : float;
  s_ttc : float;
  s_ego_speed : float;
  s_cyclist_speed : float;
  draw_ok : bool
}.

(** [update] (lines 242-258): the new plotter, and whether
    [_update_plots] was called. *)
Definition update (self : RealTimePlotter) (x : sample)
  : RealTimePlotter * bool :=
  if negb (plotting_enabled self) then (self, false)
  else
    let self' :=
      {| max_points := max_points self;
         times := deque_append (max_points self) (times self) (time_val x);
         distances :=
           deque_append (max_points self) (distances self) (s_distance x);
         ttc_values :=
           deque_append (max_points self) (ttc_values self)
                        (py_min (s_ttc x) 10);
         ego_speeds :=
           deque_append (max_points self) (ego_speeds self) (s_ego_speed x);
         cyclist_speeds :=
           deque_append (max_points self) (cyclist_speeds self)
                        (s_cyclist_speed x);
         plotting_enabled := true |} in
    if Nat.eqb (length (times self') mod 5) 0
    then (_update_plots self' (draw_ok x), true)
    else (self', false).

(** Successive calls of [update]. *)
Definition updates (self : RealTimePlotter) (xs : list sample)
  : RealTimePlotter :=
  fold_left (fun p x => fst (update p x)) xs self.

(** ** Further notions used in the statements *)

(** The command frame as the controller sends it: five doubles, the
    flags as 0.0 or 1.0. *)
Definition float_of_bool (b : bool) : float := if b then 1.0 else 0.0.

Definition frame_bytes (f : command_frame) : list byte :=
  pack_d (float_of_bool (egoCarStop f))
  ++ pack_d (float_of_bool (FCW_Activate f))
  ++ pack_d (Deceleration f)
  ++ pack_d (float_of_bool (AEB_Status f))
  ++ pack_d (float_of_bool (Emergency_Brake f)).

(** The two commands that the ego vehicle gets when no progressive
    braking applies. *)
Definition full_brake : VehicleControl :=
  {| throttle := 0.0; steer := 0.0; brake := 1.0 |}.

Definition cruise : VehicleControl :=
  {| throttle := 0.6; steer := 0.0; brake := 0.0 |}.

(** The simulated time after [n] iterations: [sim_time += 0.05], [n]
    times from 0.0. *)
Definition time_after (n : nat) : float :=
  Nat.iter n (fun t => t + 0.05) 0.0.

(** A finite number [m * 2 ^ e] whose magnitude is above one half. *)
Definition above_half (m : positive) (e : Z) : bool :=
  if (0 <=? e)%Z then true else negb (2 * Zpos m <=? 2 ^ (- e))%Z.

(** * Properties *)

(** ** Comparisons of floats through their specification *)

Ltac float_spec :=
  rewrite ?FloatAxioms.ltb_spec, ?FloatAxioms.leb_spec, ?FloatAxioms.eqb_spec in *;
  unfold SFltb, SFleb, SFeqb in *.

Lemma ltb_zero_not_leb (x : float) :
  (0 <? x) = true -> (x <=? 0) = false.
Proof.
  float_spec. change (Prim2SF 0) with (S754_zero false).
  destruct (Prim2SF x) as [s | s | | s m e]; simpl; try discriminate;
    destruct s; simpl; try discriminate; reflexivity.
Qed.

Lemma ltb_zero_not_eqb (x : float) :
  (0 <? x) = true -> (x =? 0) = false.
Proof.
  float_spec. change (Prim2SF 0) with (S754_zero false).
  destruct (Prim2SF x) as [s | s | | s m e]; simpl; try discriminate;
    destruct s; simpl; try discriminate; reflexivity.
Qed.

(** ** [calculate_ttc] *)

(** C3. [calculate_ttc] returns +infinity whenever the relative velocity
    is at most 0, whatever the distance, and returns exactly
    [distance / relative_velocity] whenever it is positive. *)
Theorem calculate_ttc_spec (distance relative_velocity : float) :
  ((relative_velocity <=? 0) = true ->
   calculate_ttc distance relative_velocity = Ret infinity) /\
  ((0 <? relative_velocity) = true ->
   calculate_ttc distance relative_velocity
   = Ret (distance / relative_velocity)).
Proof.
  unfold calculate_ttc, py_truediv. split; intros H.
  - now rewrite H.
  - now rewrite (ltb_zero_not_leb _ H), (ltb_zero_not_eqb _ H).
Qed.

Lemma calculate_ttc_spec_witness :
  calculate_ttc 6 (-1) = Ret infinity /\ calculate_ttc 6 2 = Ret (6 / 2).
Proof.
  split.
  - apply (proj1 (calculate_ttc_spec 6 (-1))). reflexivity.
  - apply (proj2 (calculate_ttc_spec 6 2)). reflexivity.
Defined.

Lemma leb_false_not_eqb (x : float) :
  (x <=? 0) = false -> (x =? 0) = false.
Proof.
  float_spec. destruct (SFcompare (Prim2SF x) (Prim2SF 0)) as [[ | | ] | ];
    simpl; congruence.
Qed.

Lemma calculate_ttc_total (distance relative_velocity : float) :
  exists ttc, calculate_ttc distance relative_velocity = Ret ttc.
Proof.
  unfold calculate_ttc, py_truediv.
  destruct (relative_velocity <=? 0) eqn:E; [now eexists|].
  rewrite (leb_false_not_eqb _ E). now eexists.
Qed.

#[local] Arguments firstn : simpl never.

(** ** The monad *)

Lemma bind_Ret {A B} (c : M A) (k : A -> M B) s a s1 :
  c s = (Ret a, s1) -> bind c k s = k a s1.
Proof. unfold bind. now intros ->. Qed.

Lemma bind_Raise {A B} (c : M A) (k : A -> M B) s e s1 :
  c s = (Raise e, s1) -> bind c k s = (Raise e, s1).
Proof. unfold bind. now intros ->. Qed.

Lemma bind_Ret_inv {A B} (c : M A) (k : A -> M B) s b s' :
  bind c k s = (Ret b, s') ->
  exists a s1, c s = (Ret a, s1) /\ k a s1 = (Ret b, s').
Proof.
  unfold bind. destruct (c s) as [[a | e] s1]; intros H.
  - now exists a, s1.
  - discriminate.
Qed.

(** ** [send_data] and [receive_data] swallow every exception *)

Lemma send_data_returns conn data s :
  exists s', send_data conn data s = (Ret tt, s')
             /\ recv_script s' = recv_script s.
Proof.
  unfold send_data, try_except, bind, sendall, print.
  destruct (sendall_script s) as [ | [ | e1 n1] [ | [ | e2 n2] [ | [ | e3 n3] r]]];
    simpl; eexists; split; reflexivity.
Qed.

Lemma receive_data_returns conn s :
  exists sim_data s', receive_data conn s = (Ret sim_data, s').
Proof.
  unfold receive_data, try_except.
  match goal with |- context [match ?b with _ => _ end] => destruct b as [[a | e] s1] end.
  - now eexists _, _.
  - destruct (exn_eqb e socket_timeout); unfold bind, print, ret; simpl;
      now eexists _, _.
Qed.

(** A failed [recv_doubles] makes [receive_data] return the default
    dictionary; only a timeout leaves the console untouched. *)
Lemma receive_data_handles conn s e s1 :
  recv_doubles conn 5 [] s = (Raise e, s1) ->
  exists s', receive_data conn s = (Ret default_sim_data, s')
             /\ stdout s' = (if exn_eqb e socket_timeout then stdout s1
                             else stdout s1 ++ [LogErrRecv e]).
Proof.
  intros H. unfold receive_data, try_except.
  rewrite (bind_Raise _ _ _ _ _ H).
  destruct (exn_eqb e socket_timeout); unfold bind, print, ret; simpl;
    eexists; split; reflexivity.
Qed.

Lemma recv_doubles_stdout conn n : forall data s r s1,
  recv_doubles conn n data s = (r, s1) -> stdout s1 = stdout s.
Proof.
  induction n as [ | n IH]; simpl; intros data s r s1 H.
  - unfold ret in H. now inversion H.
  - unfold bind at 1 in H. unfold recv in H.
    destruct (recv_script s) as [ | [packet | e] rest] eqn:E; simpl in H.
    + now inversion H.
    + destruct (Nat.ltb _ 8).
      * unfold raise in H. now inversion H.
      * unfold bind, lift in H.
        destruct (unpack_d (firstn 8 packet)) as [v | e].
        -- apply IH in H. exact H.
        -- now inversion H.
    + now inversion H.
Qed.

Lemma recv_doubles_timeout conn n data s :
  hd (RecvFails socket_timeout) (recv_script s) = RecvFails socket_timeout ->
  exists s1, recv_doubles conn (S n) data s = (Raise socket_timeout, s1).
Proof.
  intros H. simpl. unfold bind, recv.
  destruct (recv_script s) as [ | [packet | e] rest]; simpl in *.
  - now eexists.
  - discriminate.
  - inversion H. now eexists.
Qed.

(** Five complete packets are needed for [recv_doubles] to return. *)
Lemma recv_doubles_arrived conn n : forall data s data' s1,
  recv_doubles conn n data s = (Ret data', s1) ->
  (8 * n <= arrived (recv_script s))%nat.
Proof.
  induction n as [ | n IH]; simpl; intros data s data' s1 H; [lia|].
  unfold bind at 1 in H. unfold recv in H.
  destruct (recv_script s) as [ | [packet | e] rest] eqn:E; simpl in H;
    try discriminate.
  destruct (Nat.ltb (length (firstn 8 packet)) 8) eqn:L.
  - discriminate.
  - apply Nat.ltb_ge in L.
    unfold bind, lift in H.
    destruct (unpack_d (firstn 8 packet)) as [v | e]; [|discriminate].
    apply IH in H. simpl in H. simpl. lia.
Qed.

(** ** One iteration with a live connection *)

Lemma tick_connected st w s c :
  connected st = Some c -> quit_event w = false ->
  exists ttc s1 sim_data s2,
    calculate_ttc (w_distance w) (w_ego_speed w - w_cyclist_speed w) = Ret ttc
    /\ send_data c {| MIO_Distance := w_distance w;
                      MIO_Velocity := w_cyclist_speed w;
                      Ego_Velocity := w_ego_speed w |} s = (Ret tt, s1)
    /\ receive_data c s1 = (Ret sim_data, s2)
    /\ exists st' hud s',
        tick st w s = (Ret (Continue st' hud), s')
        /\ tcp_active st' = tcp_active st
        /\ conn st' = conn st
        /\ sim_time st' = sim_time st + 0.05
        /\ collision st' = (collision st || (w_distance w <? 2.5))%bool
        /\ hud_sim_data hud = sim_data
        /\ hud_ctrl hud = control_ego (sim_time st + 0.05) sim_data (collision st)
        /\ hud_tcp_active hud = tcp_active st
        /\ hud_collision hud = collision st'.
Proof.
  intros Hc Hq.
  destruct (calculate_ttc_total (w_distance w) (w_ego_speed w - w_cyclist_speed w))
    as [ttc Httc].
  destruct (send_data_returns c {| MIO_Distance := w_distance w;
                      MIO_Velocity := w_cyclist_speed w;
                      Ego_Velocity := w_ego_speed w |} s) as [s1 [Hs _]].
  destruct (receive_data_returns c s1) as [sim_data [s2 Hr]].
  exists ttc, s1, sim_data, s2. repeat split; try assumption.
  unfold tick. rewrite Hq, Hc, Httc.
  unfold bind at 1. unfold lift at 1.
  unfold bind at 1. unfold try_except.
  rewrite (bind_Ret _ _ _ _ _ Hs), (bind_Ret _ _ _ _ _ Hr). unfold ret at 1.
  destruct ((w_distance w <? 2.5) && negb (collision st)) eqn:E;
    unfold bind, print, ret; simpl;
    (eexists _, _, _; split; [reflexivity|]; simpl; repeat split;
     destruct (collision st), (w_distance w <? 2.5); simpl in *; congruence).
Qed.

(** ** The control mapper *)

Lemma gt_06_positive (x : float) : (0.6 <? x) = true -> (0 <? x) = true.
Proof.
  float_spec.
  change (Prim2SF 0.6) with (S754_finite false 5404319552844595 (-53)).
  change (Prim2SF 0) with (S754_zero false).
  destruct (Prim2SF x) as [s | s | | s m e]; simpl; try discriminate;
    destruct s; simpl; try discriminate; reflexivity.
Qed.

Lemma py_max_06_positive (x : float) : (0 <? py_max 0.6 x) = true.
Proof.
  unfold py_max. destruct (0.6 <? x) eqn:E.
  - now apply gt_06_positive.
  - reflexivity.
Qed.

Lemma positive_not_zero (x : float) : (0 <? x) = true -> x <> 0.
Proof. intros H E. rewrite E in H. discriminate H. Qed.

(** C4. [control_ego] outputs full brake (throttle 0, brake 1) if and
    only if the simulated time is within the 2.0 s warm-up or one of
    [Emergency_Brake], [egoCarStop], [collision] holds; in every other
    case the throttle is strictly positive. *)
Theorem control_ego_full_brake_iff (sim_time : float) (sim_data : command_frame)
    (collision : bool) :
  (throttle (control_ego sim_time sim_data collision) = 0
   /\ brake (control_ego sim_time sim_data collision) = 1
   <-> full_brake_condition sim_time sim_data collision = true)
  /\ (full_brake_condition sim_time sim_data collision = false ->
      (0 <? throttle (control_ego sim_time sim_data collision)) = true).
Proof.
  unfold control_ego, full_brake_condition.
  destruct (Emergency_Brake sim_data), (egoCarStop sim_data), collision,
    (2.0 <? sim_time); simpl;
    try (split; [split; [reflexivity | split; reflexivity] | discriminate]).
  split.
  - split; [intros [H _] | discriminate].
    exfalso. revert H. apply positive_not_zero, py_max_06_positive.
  - intros _. apply py_max_06_positive.
Qed.

(** ** The collision latch *)

Lemma tick_collision st w s st' hud s' :
  tick st w s = (Ret (Continue st' hud), s') ->
  collision st' = (collision st || (w_distance w <? 2.5))%bool
  /\ hud_collision hud = collision st'.
Proof.
  unfold tick. destruct (quit_event w); [discriminate|].
  intros H.
  apply bind_Ret_inv in H. destruct H as (ttc & s1 & _ & H).
  apply bind_Ret_inv in H. destruct H as ([act sim_data] & s2 & _ & H).
  apply bind_Ret_inv in H. destruct H as (c' & s3 & Hc & H).
  unfold ret in H. inversion H; subst; clear H. simpl.
  split; [|reflexivity].
  destruct (w_distance w <? 2.5), (collision st); simpl in Hc;
    unfold bind, print, ret in Hc; simpl in Hc; now inversion Hc.
Qed.




(** ** Receiving *)

Lemma send_data_recv_script conn data s s1 :
  send_data conn data s = (Ret tt, s1) -> recv_script s1 = recv_script s.
Proof.
  intros H. destruct (send_data_returns conn data s) as [s' [E R]].
  rewrite E in H. now inversion H; subst.
Qed.

Lemma receive_data_timeout conn s :
  hd (RecvFails socket_timeout) (recv_script s) = RecvFails socket_timeout ->
  exists s', receive_data conn s = (Ret default_sim_data, s')
             /\ stdout s' = stdout s.
Proof.
  intros H. destruct (recv_doubles_timeout conn 4 [] s H) as [s1 E].
  destruct (receive_data_handles conn s _ _ E) as [s' [R L]].
  exists s'. split; [exact R|].
  simpl in L. rewrite L. eapply recv_doubles_stdout; eassumption.
Qed.

(** C6. When the bounded receive of an iteration times out with no
    data, [receive_data] returns the default dictionary (all flags
    false, deceleration 0.0); the iteration completes with that
    dictionary and the loop goes on to the next iteration.  The deadline
    is the 0.05 s set on the accepted connection. *)
Theorem receive_timeout_is_not_fatal st w ws s c :
  connected st = Some c ->
  quit_event w = false ->
  hd (RecvFails socket_timeout) (recv_script s) = RecvFails socket_timeout ->
  (forall port c0 l0,
      setup_tcp_server port AcceptOk = (Some c0, l0) ->
      gettimeout c0 = Some 0.05)
  /\ (exists s', receive_data c s = (Ret default_sim_data, s'))
  /\ exists st' hud s',
      tick st w s = (Ret (Continue st' hud), s')
      /\ hud_sim_data hud = default_sim_data
      /\ Emergency_Brake (hud_sim_data hud) = false
      /\ egoCarStop (hud_sim_data hud) = false
      /\ FCW_Activate (hud_sim_data hud) = false
      /\ AEB_Status (hud_sim_data hud) = false
      /\ Deceleration (hud_sim_data hud) = 0.0
      /\ hud_ctrl hud
         = control_ego (sim_time st + 0.05) default_sim_data (collision st)
      /\ main_loop st (w :: ws) s = (st', hud) :: main_loop st' ws s'.
Proof.
  intros Hc Hq Ht. split; [|split].
  - intros port c0 l0 H. simpl in H. now inversion H.
  - destruct (receive_data_timeout c s Ht) as [s' [R _]]. now exists s'.
  - destruct (tick_connected st w s c Hc Hq)
      as (ttc & s1 & sim_data & s2 & _ & Hs & Hr & st' & hud & s' & T & H).
    destruct H as (_ & _ & _ & _ & Hd & Hctrl & _).
    rewrite <- (send_data_recv_script _ _ _ _ Hs) in Ht.
    destruct (receive_data_timeout c s1 Ht) as [s2' [R _]].
    rewrite R in Hr.
    assert (Hd' : hud_sim_data hud = default_sim_data)
      by (inversion Hr; congruence).
    assert (Hs' : sim_data = default_sim_data) by congruence.
    rewrite Hs' in Hctrl.
    exists st', hud, s'. rewrite Hd'.
    repeat split; try assumption.
    simpl. now rewrite T.
Qed.

Lemma receive_timeout_is_not_fatal_witness :
  let w := {| quit_event := false; w_distance := 30;
              w_ego_speed := 5; w_cyclist_speed := 1 |} in
  exists st' hud s',
    tick (initial_state AcceptOk) w quiet = (Ret (Continue st' hud), s')
    /\ hud_sim_data hud = default_sim_data.
Proof.
  intros w.
  destruct (receive_timeout_is_not_fatal (initial_state AcceptOk) w [] quiet
              {| gettimeout := Some 0.05 |} eq_refl eq_refl eq_refl)
    as (_ & _ & st' & hud & s' & T & D & _).
  now exists st', hud, s'.
Defined.

(** The bytes of complete packets all count as arrived. *)
Lemma arrived_complete_packets (full : list (list byte))
    (rest : list recv_result) :
  Forall (fun p => 8 <= length p)%nat full ->
  (8 * length full <= arrived (map RecvBytes full ++ rest))%nat.
Proof.
  induction 1 as [ | p full Hp _ IH]; simpl; [lia|].
  rewrite length_firstn. lia.
Qed.

(** A receive that meets, after fewer than [n] complete packets, the
    end of the script, a [recv] that raises or a short packet, stops
    there with the corresponding exception. *)
Lemma recv_doubles_interrupted conn (full : list (list byte)) :
  forall n data s rest,
  recv_script s = map RecvBytes full ++ rest ->
  Forall (fun p => 8 <= length p)%nat full ->
  (length full < n)%nat ->
  match rest with
  | RecvBytes p :: _ => (length p < 8)%nat
  | _ => True
  end ->
  exists s1,
    recv_doubles conn n data s
    = (Raise match rest with
             | [] => socket_timeout
             | RecvFails e :: _ => e
             | RecvBytes _ :: _ => ValueError
             end, s1).
Proof.
  induction full as [ | p full IH]; intros n data s rest Hs Hf Hn Hr;
    (destruct n as [ | n]; [simpl in Hn; lia|]);
    cbn [recv_doubles]; unfold bind at 1; unfold recv; rewrite Hs.
  - simpl app. destruct rest as [ | [q | e] rest']; try (now eexists).
    rewrite length_firstn.
    destruct (Nat.ltb_spec (Nat.min 8 (length q)) 8) as [L | L]; [|lia].
    now eexists.
  - simpl map. simpl app. cbv iota.
    inversion Hf as [ | p' full' Hp Hf']; subst.
    rewrite length_firstn.
    destruct (Nat.ltb_spec (Nat.min 8 (length p)) 8) as [L | L]; [lia|].
    unfold bind at 1. unfold lift at 1. unfold unpack_d.
    rewrite length_firstn.
    replace (Nat.min 8 (length p)) with 8%nat by lia.
    change (Nat.eqb 8 8) with true. cbv iota.
    apply IH; try assumption; [reflexivity | simpl in Hn; lia].
Qed.

(** Every script splits into complete packets followed by what ends
    the run of complete packets: the end of the script, a [recv] that
    raises, or a short packet. *)
Lemma script_split (script : list recv_result) :
  exists full rest,
    script = map RecvBytes full ++ rest
    /\ Forall (fun p => 8 <= length p)%nat full
    /\ match rest with
       | RecvBytes p :: _ => (length p < 8)%nat
       | _ => True
       end.
Proof.
  induction script as [ | [p | e] script IH].
  - exists [], []. repeat split. constructor.
  - destruct (Nat.leb_spec 8 (length p)) as [L | L].
    + destruct IH as (full & rest & E & F & R).
      exists (p :: full), rest. simpl. rewrite E.
      repeat split; [constructor; assumption | exact R].
    + exists [], (RecvBytes p :: script). repeat split; [constructor | exact L].
  - exists [], (RecvFails e :: script). repeat split. constructor.
Qed.

(** What [receive_data] returns and prints when the receive is cut
    short after the complete packets [full]. *)
Lemma receive_data_interrupted conn s (full : list (list byte))
    (rest : list recv_result) :
  recv_script s = map RecvBytes full ++ rest ->
  Forall (fun p => 8 <= length p)%nat full ->
  (length full < 5)%nat ->
  match rest with
  | RecvBytes p :: _ => (length p < 8)%nat
  | _ => True
  end ->
  exists s',
    receive_data conn s = (Ret default_sim_data, s')
    /\ stdout s' = match rest with
                   | [] | RecvFails socket_timeout :: _ => stdout s
                   | RecvFails e :: _ => stdout s ++ [LogErrRecv e]
                   | RecvBytes _ :: _ => stdout s ++ [LogErrRecv ValueError]
                   end.
Proof.
  intros Hs Hf Hn Hr.
  destruct (recv_doubles_interrupted conn full 5 [] s rest Hs Hf Hn Hr)
    as [s1 E].
  destruct (receive_data_handles conn s _ s1 E) as [s' [R L]].
  exists s'. split; [exact R|].
  rewrite (recv_doubles_stdout _ _ _ _ _ _ E) in L. rewrite L.
  destruct rest as [ | [q | e] rest']; try reflexivity.
  now destruct e.
Qed.

(** C8, as the code has it.  When fewer than 40 bytes arrive before a
    [recv] raises or times out, [receive_data] does not fail: it returns
    the default dictionary.  The script then consists of fewer than five
    complete packets followed by what ends the receive, and that decides
    what is printed: a timeout (or nothing more to read before the
    deadline) is silent; any other exception of [recv], and a packet
    shorter than 8 bytes (ValueError), print one error line. *)
Theorem short_read_yields_default conn s :
  (arrived (recv_script s) < 40)%nat ->
  exists s' full rest,
    receive_data conn s = (Ret default_sim_data, s')
    /\ recv_script s = map RecvBytes full ++ rest
    /\ Forall (fun p => 8 <= length p)%nat full
    /\ (length full < 5)%nat
    /\ match rest with
       | RecvBytes p :: _ => (length p < 8)%nat
       | _ => True
       end
    /\ stdout s' = match rest with
                   | [] | RecvFails socket_timeout :: _ => stdout s
                   | RecvFails e :: _ => stdout s ++ [LogErrRecv e]
                   | RecvBytes _ :: _ => stdout s ++ [LogErrRecv ValueError]
                   end.
Proof.
  intros Ha.
  destruct (script_split (recv_script s)) as (full & rest & Hs & Hf & Hr).
  assert (Hn : (length full < 5)%nat).
  { pose proof (arrived_complete_packets full rest Hf) as A.
    rewrite <- Hs in A. lia. }
  destruct (receive_data_interrupted conn s full rest Hs Hf Hn Hr)
    as (s' & R & L).
  exists s', full, rest. repeat split; assumption.
Qed.

Lemma short_read_yields_default_witness :
  let c := {| gettimeout := Some 0.05 |} in
  let s := with_recv [RecvBytes (pack_d 1); RecvBytes [x00; x00; x00]] quiet in
  exists s' full rest,
    receive_data c s = (Ret default_sim_data, s')
    /\ recv_script s = map RecvBytes full ++ rest
    /\ Forall (fun p => 8 <= length p)%nat full
    /\ (length full < 5)%nat
    /\ match rest with
       | RecvBytes p :: _ => (length p < 8)%nat
       | _ => True
       end
    /\ stdout s' = match rest with
                   | [] | RecvFails socket_timeout :: _ => stdout s
                   | RecvFails e :: _ => stdout s ++ [LogErrRecv e]
                   | RecvBytes _ :: _ => stdout s ++ [LogErrRecv ValueError]
                   end.
Proof.
  intros c s. apply (short_read_yields_default c s). vm_compute. lia.
Defined.

(** C8 as stated fails: a 4-byte packet does not make the receive
    fail, it yields a dictionary, the very one that a timeout and a
    received frame of five zeros yield; and incompleteness is not the
    only way for decoding to fail: a complete frame whose first value is
    NaN is discarded too ([round] raises). *)
Lemma short_read_is_not_an_error :
  let c := {| gettimeout := Some 0.05 |} in
  let zeros := pack_d 0 in
  (arrived [RecvBytes [x01; x02; x03; x04]] < 40)%nat
  /\ fst (receive_data c (with_recv [RecvBytes [x01; x02; x03; x04]] quiet))
     = Ret default_sim_data
  /\ fst (receive_data c (with_recv [] quiet)) = Ret default_sim_data
  /\ fst (receive_data c
            (with_recv (packets 5 (zeros ++ zeros ++ zeros ++ zeros ++ zeros))
                       quiet))
     = Ret default_sim_data
  /\ receive_data c
       (with_recv (packets 5 (pack_d nan ++ pack_d 1 ++ pack_d 0.3
                              ++ pack_d 1 ++ pack_d 1)) quiet)
     = (Ret default_sim_data,
        {| sendall_script := []; recv_script := []; wire_out := [];
           stdout := [LogErrRecv ValueError] |}).
Proof.
  vm_compute. repeat split. lia.
Qed.

(** ** The link state *)

(** The handler of [main] that would clear [tcp_active] is never
    reached: no iteration changes the flag. *)
Lemma tick_keeps_tcp_active st w s st' hud s' :
  tick st w s = (Ret (Continue st' hud), s') ->
  tcp_active st' = tcp_active st /\ hud_tcp_active hud = tcp_active st.
Proof.
  destruct (quit_event w) eqn:Hq.
  { unfold tick. rewrite Hq. discriminate. }
  destruct (connected st) as [c | ] eqn:Hc.
  - destruct (tick_connected st w s c Hc Hq)
      as (ttc & sa & sd & sb & _ & _ & _ & st1 & hud1 & s1 & T & H).
    intros T'. rewrite T in T'. inversion T'; subst.
    destruct H as (H1 & _ & _ & _ & _ & _ & H2 & _). now split.
  - unfold tick. rewrite Hq, Hc. intros H.
    apply bind_Ret_inv in H. destruct H as (ttc & s1 & _ & H).
    apply bind_Ret_inv in H. destruct H as ([act sim_data] & s2 & Hl & H).
    apply bind_Ret_inv in H. destruct H as (c' & s3 & _ & H).
    unfold ret in H. inversion H; subst; clear H. simpl.
    apply bind_Ret_inv in Hl. destruct Hl as (sd & s4 & _ & Hl).
    unfold ret in Hl. inversion Hl; subst. now split.
Qed.

(** C2 fails on the code.  With a live connection, a [sendall] that
    raises (broken pipe) and a [recv] that raises (connection reset) are
    both swallowed by [send_data] and [receive_data]: the iteration
    keeps [tcp_active] true and uses the default dictionary, not the
    locally synthesized decision, here at 6 m and closing at 2 m/s,
    where the local decision would brake.  More generally no iteration,
    whatever the socket does, changes [tcp_active]. *)
Theorem io_error_does_not_degrade_link :
  let w := {| quit_event := false; w_distance := 6;
              w_ego_speed := 2; w_cyclist_speed := 0 |} in
  let s := {| sendall_script := [SendFails OSError 0];
              recv_script := [RecvFails OSError];
              wire_out := []; stdout := [] |} in
  let st := {| tcp_active := true; conn := Some {| gettimeout := Some 0.05 |};
               sim_time := 3.0; collision := false |} in
  (exists st' hud s',
      tick st w s = (Ret (Continue st' hud), s')
      /\ tcp_active st' = true
      /\ hud_sim_data hud = default_sim_data
      /\ stdout s' = [LogErrSend OSError; LogErrRecv OSError]
      /\ throttle (hud_ctrl hud) = 0.6
      /\ brake (hud_ctrl hud) = 0
      /\ (exists sim_data, local_sim_data 6 2 = Ret sim_data
                           /\ Emergency_Brake sim_data = true))
  /\ (forall st0 w0 s0 st' hud s',
         tick st0 w0 s0 = (Ret (Continue st' hud), s') ->
         tcp_active st' = tcp_active st0).
Proof.
  split.
  - vm_compute. eexists _, _, _. repeat split. eexists. split; reflexivity.
  - intros st0 w0 s0 st' hud s' T.
    exact (proj1 (tick_keeps_tcp_active _ _ _ _ _ _ T)).
Qed.

(** ** Concrete runs *)

(** [struct.pack('d', 1.0)] is [00 00 00 00 00 00 f0 3f], and
    [struct.pack('d', -2.5)] is [00 00 00 00 00 00 04 c0]. *)
Example pack_d_one :
  pack_d 1 = [x00; x00; x00; x00; x00; x00; xf0; x3f].
Proof. reflexivity. Qed.

Example pack_d_minus_two_and_a_half :
  pack_d (-2.5) = [x00; x00; x00; x00; x00; x00; x04; xc0].
Proof. reflexivity. Qed.

Example unpack_d_wrong_size : unpack_d [x00; x01] = Raise struct_error.
Proof. reflexivity. Qed.

(** [round] goes to the even neighbour on ties. *)
Example py_round_ties :
  py_round 0.5 = Ret 0%Z /\ py_round 1.5 = Ret 2%Z /\ py_round 2.5 = Ret 2%Z
  /\ py_round (-0.5) = Ret 0%Z /\ py_round (-3.5) = Ret (-4)%Z
  /\ py_round 0.6 = Ret 1%Z /\ py_round nan = Raise ValueError
  /\ py_round infinity = Raise OverflowError.
Proof. repeat split. Qed.

Example calculate_ttc_closing : calculate_ttc 6 2 = Ret 3.
Proof. reflexivity. Qed.

Example calculate_ttc_opening : calculate_ttc 6 (-2) = Ret infinity.
Proof. reflexivity. Qed.

(** A frame sent by the controller: stop 0, warning 1, deceleration
    0.35, AEB 1, emergency brake 0. *)
Example receive_data_frame :
  receive_data {| gettimeout := Some 0.05 |}
    (with_recv (packets 5 (pack_d 0 ++ pack_d 1 ++ pack_d 0.35
                           ++ pack_d 1 ++ pack_d 0)) quiet)
  = (Ret {| egoCarStop := false; FCW_Activate := true;
            Deceleration := 0.35; AEB_Status := true;
            Emergency_Brake := false |},
     {| sendall_script := []; recv_script := []; wire_out := [];
        stdout := [LogRecv {| egoCarStop := false; FCW_Activate := true;
                              Deceleration := 0.35; AEB_Status := true;
                              Emergency_Brake := false |}] |}).
Proof. vm_compute. reflexivity. Qed.

(** The first iteration of a run without Simulink, far from the
    cyclist: warm-up holds the car at full brake. *)
Example first_tick_without_link :
  exists st' hud,
    tick (initial_state (AcceptFails OSError))
         {| quit_event := false; w_distance := 63;
            w_ego_speed := 0; w_cyclist_speed := 0 |} quiet
    = (Ret (Continue st' hud), quiet)
    /\ sim_time st' = 0.05
    /\ hud_ttc hud = infinity
    /\ hud_sim_data hud = default_sim_data
    /\ hud_ctrl hud = {| throttle := 0; steer := 0; brake := 1 |}.
Proof. vm_compute. eexists _, _. repeat split. Qed.

(** ** Binary64 arithmetic in [SpecFloat]

    The arithmetic of binary64 rounds the exact result to the nearest
    float.  What the program needs is that rounding never crosses a
    float: a float above (below) the exact result is above (below) the
    rounded one.  The lemmas are stated on the functions that specify
    the primitive operations ([SF64sub], [SF64div]). *)

Module Binary64.

Local Open Scope Z_scope.

(** *** Digits and validity *)

Lemma digits2_pos_bounds (p : positive) :
  (2 ^ (Zpos (digits2_pos p) - 1) <= Zpos p < 2 ^ Zpos (digits2_pos p))%Z.
Proof.
  induction p as [p IH | p IH | ]; simpl digits2_pos.
  - rewrite Pos2Z.inj_succ.
    replace (Z.succ (Zpos (digits2_pos p)) - 1)%Z
      with (Z.succ (Zpos (digits2_pos p) - 1))%Z by lia.
    rewrite !Z.pow_succ_r by lia. lia.
  - rewrite Pos2Z.inj_succ.
    replace (Z.succ (Zpos (digits2_pos p)) - 1)%Z
      with (Z.succ (Zpos (digits2_pos p) - 1))%Z by lia.
    rewrite !Z.pow_succ_r by lia. lia.
  - simpl. lia.
Qed.

(** What validity says of a finite binary64 number: the exponent is in
    range, the significand fits 53 bits, and it has its leading bit set
    unless the number is subnormal. *)
Lemma valid_finite_inv s m e :
  valid_binary (S754_finite s m e) = true ->
  (-1074 <= e <= 971)%Z /\ (Zpos m < 2 ^ 53)%Z
  /\ (e = (-1074)%Z \/ (2 ^ 52 <= Zpos m)%Z).
Proof.
  unfold valid_binary, bounded, canonical_mantissa, fexp, SpecFloat.emin.
  change prec with 53%Z. change emax with 1024%Z.
  intros H. apply andb_prop in H. destruct H as [H1 H2].
  apply Z.eqb_eq in H1. apply Z.leb_le in H2.
  pose proof (digits2_pos_bounds m) as [B1 B2].
  assert (D : (Zpos (digits2_pos m) = 53 \/
               (e = -1074 /\ Zpos (digits2_pos m) <= 53))%Z) by lia.
  destruct D as [D | [D1 D2]].
  - rewrite D in B1, B2. simpl in B1. repeat split; lia.
  - assert (Zpos m < 2 ^ 53)%Z.
    { eapply Z.lt_le_trans; [exact B2|]. apply Z.pow_le_mono_r; lia. }
    repeat split; lia.
Qed.

(** *** Right shifts and rounding to nearest even *)

Lemma iter_pos_nat {A} (f : A -> A) (p : positive) : forall x,
  @SpecFloat.iter_pos A f p x = Nat.iter (Pos.to_nat p) f x.
Proof.
  induction p as [p IH | p IH | ]; intros x; simpl SpecFloat.iter_pos.
  - rewrite !IH, Pos2Nat.inj_xI.
    replace (S (2 * Pos.to_nat p))%nat
      with (Pos.to_nat p + (Pos.to_nat p + 1))%nat by lia.
    rewrite !Nat.iter_add. reflexivity.
  - rewrite !IH, Pos2Nat.inj_xO.
    replace (2 * Pos.to_nat p)%nat with (Pos.to_nat p + Pos.to_nat p)%nat by lia.
    rewrite Nat.iter_add. reflexivity.
  - reflexivity.
Qed.

Lemma shr_1_spec mrs :
  0 <= shr_m mrs ->
  shr_m (shr_1 mrs) = shr_m mrs / 2
  /\ shr_r (shr_1 mrs) = Z.odd (shr_m mrs)
  /\ shr_s (shr_1 mrs) = (shr_r mrs || shr_s mrs)%bool.
Proof.
  destruct mrs as [m r s]. simpl shr_m. intros H.
  destruct m as [ | [p | p | ] | p]; try lia; simpl shr_1; simpl shr_m;
    simpl shr_r; simpl shr_s; repeat split; try reflexivity.
  - rewrite Pos2Z.inj_xI. apply (Z.div_unique _ _ _ 1); lia.
  - rewrite Pos2Z.inj_xO. apply (Z.div_unique _ _ _ 0); lia.
Qed.

(** [n] right shifts of an exact record: the significand is divided by
    [2 ^ n], and the record stays exact when the division is. *)
Lemma shr_iter_spec (m : Z) (l : location) (n : nat) :
  0 <= m ->
  let mrs := Nat.iter n shr_1 (shr_record_of_loc m l) in
  shr_m mrs = m / 2 ^ Z.of_nat n
  /\ (l = loc_Exact -> m mod 2 ^ Z.of_nat n = 0 ->
      shr_r mrs = false /\ shr_s mrs = false).
Proof.
  intros Hm. induction n as [ | n IH].
  - simpl. split.
    + rewrite Z.div_1_r. now destruct l as [ | [ | | ]].
    + intros -> _. now split.
  - cbv zeta in IH |- *. rewrite Nat.iter_succ.
    set (mrs := Nat.iter n shr_1 (shr_record_of_loc m l)) in *.
    destruct IH as [IH1 IH2].
    assert (P : 0 < 2 ^ Z.of_nat n) by (apply Z.pow_pos_nonneg; lia).
    assert (N : 0 <= shr_m mrs) by (rewrite IH1; apply Z.div_pos; lia).
    destruct (shr_1_spec mrs N) as (S1 & S2 & S3).
    rewrite Nat2Z.inj_succ, Z.pow_succ_r by lia.
    split.
    + rewrite S1, IH1, Z.div_div by lia. f_equal. lia.
    + intros El Hmod.
      assert (Hmod' : m mod 2 ^ Z.of_nat n = 0).
      { apply Z.mod_divide in Hmod; [|lia]. apply Z.mod_divide; [lia|].
        destruct Hmod as [k Hk]. exists (k * 2). lia. }
      destruct (IH2 El Hmod') as [R S]. rewrite S2, S3, R, S.
      split; [|reflexivity].
      rewrite IH1. apply Z.mod_divide in Hmod; [|lia].
      destruct Hmod as [k Hk]. subst m.
      replace (k * (2 * 2 ^ Z.of_nat n)) with ((k * 2) * 2 ^ Z.of_nat n) by lia.
      rewrite Z.div_mul by lia.
      rewrite Z.odd_mul. simpl. apply andb_false_r.
Qed.

Lemma round_nearest_even_bounds (m : Z) (l : location) :
  m <= round_nearest_even m l <= m + 1
  /\ (l = loc_Exact -> round_nearest_even m l = m).
Proof.
  destruct l as [ | [ | | ]]; simpl; try destruct (Z.even m);
    (split; [lia | try reflexivity; discriminate]).
Qed.

(** [shr_fexp] on a non-negative significand. *)
Lemma shr_fexp_spec (m e : Z) (l : location) :
  0 <= m ->
  let n := Z.max (fexp prec emax (Zdigits2 m + e) - e) 0 in
  let '(mrs, e') := shr_fexp prec emax m e l in
  e' = e + n
  /\ shr_m mrs = m / 2 ^ n
  /\ (l = loc_Exact -> m mod 2 ^ n = 0 -> loc_of_shr_record mrs = loc_Exact).
Proof.
  intros Hm n. unfold shr_fexp, shr. subst n.
  destruct (fexp prec emax (Zdigits2 m + e) - e) as [ | p | p] eqn:E.
  - simpl Z.max. rewrite Z.pow_0_r, Z.div_1_r, Z.add_0_r.
    repeat split. + now destruct l as [ | [ | | ]]. + now intros ->.
  - rewrite Z.max_l by lia. rewrite iter_pos_nat.
    destruct (shr_iter_spec m l (Pos.to_nat p) Hm) as [S1 S2].
    rewrite positive_nat_Z in S1, S2.
    repeat split; try assumption.
    intros El Hmod. destruct (S2 El Hmod) as [R S].
    destruct (Nat.iter _ _ _) as [m' r' s']. simpl in R, S. now subst.
  - rewrite Z.max_r by lia. rewrite Z.pow_0_r, Z.div_1_r, Z.add_0_r.
    repeat split. + now destruct l as [ | [ | | ]]. + now intros ->.
Qed.

(** *** Values, digits and exponents *)

Ltac fexp_unfold :=
  unfold canonical_mantissa, fexp, SpecFloat.emin in *;
  change prec with 53 in *; change emax with 1024 in *.

Lemma Zdigits2_bounds (m : Z) :
  0 < m -> 0 < Zdigits2 m /\ 2 ^ (Zdigits2 m - 1) <= m < 2 ^ Zdigits2 m.
Proof.
  destruct m as [ | p | p]; try lia. intros _. simpl Zdigits2.
  split; [lia | apply digits2_pos_bounds].
Qed.

Lemma pow2_pos (a : Z) : 0 <= a -> 0 < 2 ^ a.
Proof. intros H. apply Z.pow_pos_nonneg; lia. Qed.

Lemma pow2_split (a b K : Z) :
  K <= a -> a <= b -> 2 ^ (b - K) = 2 ^ (b - a) * 2 ^ (a - K).
Proof. intros H1 H2. rewrite <- Z.pow_add_r by lia. f_equal. lia. Qed.

(** Numbers are compared through their values in units of [2 ^ K],
    for a [K] below the exponents at hand. *)
Lemma digits_le (a b ea eb K : Z) :
  0 < a -> 0 < b -> K <= ea -> K <= eb ->
  a * 2 ^ (ea - K) <= b * 2 ^ (eb - K) ->
  Zdigits2 a + ea <= Zdigits2 b + eb.
Proof.
  intros Ha Hb Ka Kb H.
  destruct (Zdigits2_bounds a Ha) as (Da & A1 & _).
  destruct (Zdigits2_bounds b Hb) as (Db & _ & B2).
  assert (Pa := pow2_pos (ea - K) ltac:(lia)).
  assert (Pb := pow2_pos (eb - K) ltac:(lia)).
  assert (L : 2 ^ (Zdigits2 a - 1 + (ea - K)) < 2 ^ (Zdigits2 b + (eb - K))).
  { rewrite !Z.pow_add_r by lia.
    apply Z.le_lt_trans with (a * 2 ^ (ea - K)); [nia|].
    apply Z.le_lt_trans with (b * 2 ^ (eb - K)); [exact H | nia]. }
  apply Z.pow_lt_mono_r_iff in L; lia.
Qed.

Lemma canonical_fexp (m : positive) (e : Z) :
  canonical_mantissa prec emax m e = true ->
  fexp prec emax (Zdigits2 (Zpos m) + e) = e.
Proof. unfold canonical_mantissa. intros H. now apply Z.eqb_eq in H. Qed.

(** Rounding [m * 2 ^ e] at the exponent [e'] of its binade, below a
    float [c]: the quotient, incremented when the division is inexact,
    stays below [c]. *)
Lemma shift_upper (m e K : Z) (mc : positive) (ec rnd : Z) :
  0 < m -> K <= e -> K <= ec ->
  canonical_mantissa prec emax mc ec = true ->
  let e' := fexp prec emax (Zdigits2 m + e) in
  e <= e' ->
  m * 2 ^ (e - K) <= Zpos mc * 2 ^ (ec - K) ->
  rnd <= m / 2 ^ (e' - e) + 1 ->
  (m mod 2 ^ (e' - e) = 0 -> rnd = m / 2 ^ (e' - e)) ->
  e' <= ec /\ rnd * 2 ^ (e' - K) <= Zpos mc * 2 ^ (ec - K).
Proof.
  intros Hm Ke Kc Hc e' He H R1 R2.
  assert (D := digits_le m (Zpos mc) e ec K Hm ltac:(lia) Ke Kc H).
  assert (E : e' <= ec).
  { apply canonical_fexp in Hc. subst e'. fexp_unfold. lia. }
  split; [exact E|].
  set (N := 2 ^ (e' - e)) in *.
  assert (PN := pow2_pos (e' - e) ltac:(lia)). fold N in PN.
  assert (PP := pow2_pos (e - K) ltac:(lia)).
  assert (PC := pow2_pos (ec - e') ltac:(lia)).
  rewrite (pow2_split e' ec K) in * by lia.
  rewrite (pow2_split e e' K) in * by lia. fold N in H |- *.
  set (P := 2 ^ (e - K)) in *. set (kc := Zpos mc * 2 ^ (ec - e')).
  assert (H' : m <= kc * N) by (subst kc; nia).
  assert (Q := Z.div_mod m N ltac:(lia)).
  assert (B := Z.mod_pos_bound m N PN).
  assert (G : rnd <= kc).
  { destruct (Z.eq_dec (m mod N) 0) as [Z0 | NZ].
    - rewrite (R2 Z0). nia.
    - assert (m / N < kc) by nia. lia. }
  subst kc. nia.
Qed.

(** Dropping the low bits of [m * 2 ^ e] down to the exponent [e'] of
    its binade keeps it above every float [c] that lies below the next
    multiple of [2 ^ e]. *)
Lemma shift_lower (m e K : Z) (mc : positive) (ec : Z) :
  0 < m -> K <= e -> K <= ec ->
  canonical_mantissa prec emax mc ec = true ->
  let e' := fexp prec emax (Zdigits2 m + e) in
  e <= e' ->
  Zpos mc * 2 ^ (ec - K) < (m + 1) * 2 ^ (e - K) ->
  Zpos mc * 2 ^ (ec - K) <= (m / 2 ^ (e' - e)) * 2 ^ (e' - K).
Proof.
  intros Hm Ke Kc Hc e' He H.
  set (N := 2 ^ (e' - e)) in *.
  assert (PN := pow2_pos (e' - e) ltac:(lia)). fold N in PN.
  assert (PP := pow2_pos (e - K) ltac:(lia)).
  assert (Q := Z.div_mod m N ltac:(lia)).
  assert (B := Z.mod_pos_bound m N PN).
  rewrite (pow2_split e e' K) by lia. fold N.
  set (P := 2 ^ (e - K)) in *.
  destruct (Z_le_gt_dec e' ec) as [L | G].
  - assert (PC := pow2_pos (ec - e') ltac:(lia)).
    rewrite (pow2_split e' ec K) in * by lia.
    rewrite (pow2_split e e' K) in * by lia. fold N P in H |- *.
    set (kc := Zpos mc * 2 ^ (ec - e')) in *.
    assert (kc * N < m + 1) by nia.
    assert (kc <= m / N) by nia.
    nia.
  - pose proof (canonical_fexp _ _ Hc) as Fc.
    destruct (Zdigits2_bounds m Hm) as (Dm & M1 & M2).
    destruct (Zdigits2_bounds (Zpos mc) ltac:(lia)) as (Dc & C1 & C2).
    assert (E' : e' = Zdigits2 m + e - 53 /\ Zdigits2 (Zpos mc) + ec < Zdigits2 m + e
                 /\ -1074 <= ec).
    { subst e'. fexp_unfold. lia. }
    destruct E' as (E1 & E2 & E3).
    (* the quotient keeps 53 digits *)
    assert (Q52 : 2 ^ 52 <= m / N).
    { apply Z.div_le_lower_bound; [lia|].
      apply Z.le_trans with (2 ^ (Zdigits2 m - 1)); [|lia].
      subst N. rewrite <- Z.pow_add_r by lia.
      apply Z.pow_le_mono_r; lia. }
    apply Z.lt_le_incl.
    apply Z.lt_le_trans with (2 ^ Zdigits2 (Zpos mc) * 2 ^ (ec - K)).
    { assert (PK := pow2_pos (ec - K) ltac:(lia)). nia. }
    apply Z.le_trans with (2 ^ 52 * (N * P)).
    + subst N P. rewrite <- !Z.pow_add_r by lia.
      apply Z.pow_le_mono_r; lia.
    + nia.
Qed.

Lemma canonical_bounds (m : positive) (e : Z) :
  canonical_mantissa prec emax m e = true ->
  -1074 <= e /\ Zpos m < 2 ^ 53 /\ (e = -1074 \/ 2 ^ 52 <= Zpos m).
Proof.
  intros H. apply canonical_fexp in H.
  destruct (Zdigits2_bounds (Zpos m) ltac:(lia)) as (D & B1 & B2).
  assert (C : -1074 <= e /\ Zdigits2 (Zpos m) <= 53
              /\ (e = -1074 \/ Zdigits2 (Zpos m) = 53)).
  { fexp_unfold. lia. }
  destruct C as (C1 & C2 & C3). split; [exact C1|]. split.
  - eapply Z.lt_le_trans; [exact B2|]. apply Z.pow_le_mono_r; lia.
  - destruct C3 as [C3 | C3]; [now left | right].
    rewrite C3 in B1. exact B1.
Qed.

(** Order of two positive floats from the order of their values. *)
Lemma SFltb_finite_false (m1 m2 : positive) (e1 e2 K : Z) :
  K <= e1 -> K <= e2 ->
  canonical_mantissa prec emax m1 e1 = true ->
  canonical_mantissa prec emax m2 e2 = true ->
  Zpos m2 * 2 ^ (e2 - K) <= Zpos m1 * 2 ^ (e1 - K) ->
  SFltb (S754_finite false m1 e1) (S754_finite false m2 e2) = false.
Proof.
  intros K1 K2 C1 C2 H. unfold SFltb, SFcompare.
  destruct (Z.compare_spec e1 e2) as [E | E | E]; [| |reflexivity].
  - subst e2. rewrite Pos.compare_cont_spec. simpl.
    assert (P := pow2_pos (e1 - K) ltac:(lia)).
    assert (L : (m2 <= m1)%positive) by (apply Pos2Z.pos_le_pos; nia).
    apply Pos.compare_ge_iff in L.
    destruct (Pos.compare m1 m2); try reflexivity. now elim L.
  - exfalso. apply canonical_bounds in C1, C2.
    destruct C1 as (A1 & A2 & _). destruct C2 as (B1 & _ & B3).
    assert (B : 2 ^ 52 <= Zpos m2) by lia.
    rewrite (pow2_split e1 e2 K) in H by lia.
    assert (P := pow2_pos (e1 - K) ltac:(lia)).
    assert (T : 2 ^ 1 <= 2 ^ (e2 - e1)) by (apply Z.pow_le_mono_r; lia).
    rewrite Z.mul_assoc in H.
    apply Z.mul_le_mono_pos_r in H; [|exact P].
    change (2 ^ 1) with 2 in T. change (2 ^ 53) with 9007199254740992 in A2.
    change (2 ^ 52) with 4503599627370496 in B.
    nia.
Qed.

Lemma valid_canonical s m e :
  valid_binary (S754_finite s m e) = true ->
  canonical_mantissa prec emax m e = true /\ e <= 971.
Proof.
  unfold valid_binary, bounded. intros H. apply andb_prop in H.
  destruct H as [H1 H2]. apply Z.leb_le in H2.
  change prec with 53 in H2. change emax with 1024 in H2. now split; [|lia].
Qed.

(** *** [binary_round_aux] does not cross a float *)

(** The two shifts of [binary_round_aux] on a positive significand
    whose exponent is at most the exponent of its binade. *)
Lemma binary_round_aux_cases (mx ex : Z) (lx : location) :
  0 < mx ->
  let e1 := fexp prec emax (Zdigits2 mx + ex) in
  ex <= e1 ->
  exists rnd e2 m2,
    mx / 2 ^ (e1 - ex) <= rnd <= mx / 2 ^ (e1 - ex) + 1
    /\ (lx = loc_Exact -> mx mod 2 ^ (e1 - ex) = 0 -> rnd = mx / 2 ^ (e1 - ex))
    /\ e2 = Z.max (fexp prec emax (Zdigits2 rnd + e1)) e1
    /\ m2 = rnd / 2 ^ (e2 - e1)
    /\ binary_round_aux prec emax false mx ex lx
       = match m2 with
         | 0 => S754_zero false
         | Zpos m => if e2 <=? 971 then S754_finite false m e2
                     else S754_infinity false
         | Zneg _ => S754_nan
         end.
Proof.
  intros Hm e1 He. unfold binary_round_aux.
  pose proof (shr_fexp_spec mx ex lx ltac:(lia)) as S1. cbv zeta in S1.
  destruct (shr_fexp prec emax mx ex lx) as [mrs1 e1'].
  fold e1 in S1. rewrite Z.max_l in S1 by lia.
  destruct S1 as (E1 & M1 & L1).
  assert (E1' : e1' = e1) by lia. clear E1. subst e1'.
  destruct (round_nearest_even_bounds (shr_m mrs1) (loc_of_shr_record mrs1))
    as [R1 R2].
  set (rnd := round_nearest_even (shr_m mrs1) (loc_of_shr_record mrs1)) in *.
  assert (Q : 0 <= mx / 2 ^ (e1 - ex))
    by (apply Z.div_pos; [lia | apply pow2_pos; lia]).
  pose proof (shr_fexp_spec rnd e1 loc_Exact ltac:(lia)) as S2. cbv zeta in S2.
  destruct (shr_fexp prec emax rnd e1 loc_Exact) as [mrs2 e2].
  destruct S2 as (E2 & M2 & _).
  exists rnd, e2, (shr_m mrs2).
  assert (E2' : e2 = Z.max (fexp prec emax (Zdigits2 rnd + e1)) e1) by lia.
  split; [lia|]. split.
  { intros El Hmod. rewrite <- M1. apply R2. now apply L1. }
  split; [exact E2'|]. split.
  { rewrite M2. f_equal. f_equal. lia. }
  change (emax - prec) with 971. reflexivity.
Qed.

(** Upper bound: the rounding of an exact value that is at most a float
    [c] is not above [c]. *)
Lemma binary_round_aux_upper (mx ex K : Z) (mc : positive) (ec : Z) :
  0 < mx -> K <= ex -> K <= ec ->
  valid_binary (S754_finite false mc ec) = true ->
  ex <= fexp prec emax (Zdigits2 mx + ex) ->
  mx * 2 ^ (ex - K) <= Zpos mc * 2 ^ (ec - K) ->
  valid_binary (binary_round_aux prec emax false mx ex loc_Exact) = true ->
  SFltb (S754_finite false mc ec)
        (binary_round_aux prec emax false mx ex loc_Exact) = false.
Proof.
  intros Hm Kx Kc Vc He H V.
  apply valid_canonical in Vc. destruct Vc as [Cc Ec].
  destruct (binary_round_aux_cases mx ex loc_Exact Hm He)
    as (rnd & e2 & m2 & R1 & R2 & E2 & M2 & EQ).
  rewrite EQ in V |- *. clear EQ.
  set (e1 := fexp prec emax (Zdigits2 mx + ex)) in *.
  destruct (shift_upper mx ex K mc ec rnd Hm Kx Kc Cc He H (proj2 R1)
              (R2 eq_refl)) as [E1 U1].
  fold e1 in E1, U1.
  assert (Q : 0 <= mx / 2 ^ (e1 - ex))
    by (apply Z.div_pos; [lia | apply pow2_pos; lia]).
  subst m2.
  destruct (rnd / 2 ^ (e2 - e1)) as [ | p2 | p2] eqn:M2; try reflexivity.
  assert (Hr : 0 < rnd).
  { destruct (Z.eq_dec rnd 0) as [Z0 | NZ]; [|lia].
    rewrite Z0, Z.div_0_l in M2; [discriminate M2|].
    apply Z.neq_sym, Z.lt_neq, pow2_pos. lia. }
  (* the second shift *)
  assert (U2 : e2 <= ec /\ Zpos p2 * 2 ^ (e2 - K) <= Zpos mc * 2 ^ (ec - K)).
  { destruct (Z_le_gt_dec e1 (fexp prec emax (Zdigits2 rnd + e1))) as [L | G].
    - rewrite Z.max_l in E2 by lia.
      destruct (shift_upper rnd e1 K mc ec (rnd / 2 ^ (e2 - e1))
                  Hr ltac:(lia) Kc Cc L U1) as [E3 U3].
      + rewrite E2. lia.
      + now rewrite E2.
      + rewrite <- E2 in E3, U3. rewrite M2 in U3. now split.
    - rewrite Z.max_r in E2 by lia. subst e2.
      rewrite Z.sub_diag, Z.pow_0_r, Z.div_1_r in M2. rewrite M2 in U1.
      now split. }
  destruct U2 as [E3 U3].
  destruct (Z.leb_spec e2 971) as [L | G]; [|lia].
  apply valid_canonical in V. destruct V as [C2 _].
  apply (SFltb_finite_false mc p2 ec e2 K); try assumption.
  subst e2. lia.
Qed.

(** Lower bound: the rounding of a value that is at least a float [c]
    is not below [c]; the value may exceed [mx * 2 ^ ex] by less than
    one unit of [2 ^ ex], as recorded by the location. *)
Lemma binary_round_aux_lower (mx ex K : Z) (lx : location)
    (mc : positive) (ec : Z) :
  0 < mx -> K <= ex -> K <= ec ->
  valid_binary (S754_finite false mc ec) = true ->
  ex <= fexp prec emax (Zdigits2 mx + ex) ->
  Zpos mc * 2 ^ (ec - K) < (mx + 1) * 2 ^ (ex - K) ->
  valid_binary (binary_round_aux prec emax false mx ex lx) = true ->
  SFltb (binary_round_aux prec emax false mx ex lx)
        (S754_finite false mc ec) = false.
Proof.
  intros Hm Kx Kc Vc He H V.
  apply valid_canonical in Vc. destruct Vc as [Cc Ec].
  destruct (binary_round_aux_cases mx ex lx Hm He)
    as (rnd & e2 & m2 & R1 & _ & E2 & M2 & EQ).
  rewrite EQ in V |- *. clear EQ.
  pose proof (shift_lower mx ex K mc ec Hm Kx Kc Cc He H) as L1.
  set (e1 := fexp prec emax (Zdigits2 mx + ex)) in *.
  assert (Q : 0 <= mx / 2 ^ (e1 - ex))
    by (apply Z.div_pos; [lia | apply pow2_pos; lia]).
  assert (P1 := pow2_pos (e1 - K) ltac:(lia)).
  assert (L2 : Zpos mc * 2 ^ (ec - K) <= rnd * 2 ^ (e1 - K)) by nia.
  assert (Hr : 0 < rnd) by nia.
  assert (L3 : Zpos mc * 2 ^ (ec - K) <= m2 * 2 ^ (e2 - K)).
  { destruct (Z_le_gt_dec e1 (fexp prec emax (Zdigits2 rnd + e1))) as [L | G].
    - rewrite Z.max_l in E2 by lia.
      pose proof (shift_lower rnd e1 K mc ec Hr ltac:(lia) Kc Cc L
                    ltac:(nia)) as L3.
      rewrite <- E2 in L3. now rewrite M2.
    - rewrite Z.max_r in E2 by lia. subst e2.
      rewrite Z.sub_diag, Z.pow_0_r, Z.div_1_r in M2. now rewrite M2. }
  assert (K2 : K <= e2) by lia.
  assert (P2 := pow2_pos (e2 - K) ltac:(lia)).
  destruct m2 as [ | p2 | p2]; try reflexivity; [nia|].
  destruct (Z.leb_spec e2 971) as [L | G]; [|reflexivity].
  apply valid_canonical in V. destruct V as [C2 _].
  now apply (SFltb_finite_false p2 mc e2 ec K).
Qed.

(** *** Alignment *)

Lemma iter_xO_spec (d : positive) (mx : positive) :
  Zpos (Pos.iter xO mx d) = Zpos mx * 2 ^ Zpos d.
Proof.
  induction d as [ | d IH] using Pos.peano_ind.
  - simpl. lia.
  - rewrite Pos.iter_succ, Pos2Z.inj_succ, Z.pow_succ_r by lia.
    rewrite Pos2Z.inj_xO, IH. lia.
Qed.

(** [shl_align] only rewrites the pair: the value is unchanged. *)
Lemma shl_align_spec (mx : positive) (ex ex' : Z) :
  let '(mz, ez) := shl_align mx ex ex' in
  ez = Z.min ex ex' /\ Zpos mz = Zpos mx * 2 ^ (ex - ez).
Proof.
  unfold shl_align.
  destruct (ex' - ex) as [ | d | d] eqn:E.
  - split; [lia|]. replace (ex - ex) with 0 by lia. simpl. lia.
  - split; [lia|]. replace (ex - ex) with 0 by lia. simpl. lia.
  - split; [lia|]. replace (ex - ex') with (Zpos d) by lia.
    apply iter_xO_spec.
Qed.

Lemma Zdigits2_unique (x d : Z) :
  0 < x -> 2 ^ (d - 1) <= x < 2 ^ d -> Zdigits2 x = d.
Proof.
  intros Hx [L U].
  destruct (Zdigits2_bounds x Hx) as (D & B1 & B2).
  assert (D0 : 0 < d).
  { destruct (Z_lt_le_dec 0 d) as [G | G]; [exact G|].
    exfalso. destruct (Z.eq_dec d 0) as [-> | N]; [simpl in U; lia|].
    rewrite Z.pow_neg_r in U by lia. lia. }
  assert (A : 2 ^ (d - 1) < 2 ^ Zdigits2 x) by lia.
  assert (B : 2 ^ (Zdigits2 x - 1) < 2 ^ d) by lia.
  apply Z.pow_lt_mono_r_iff in A; [|lia|lia].
  apply Z.pow_lt_mono_r_iff in B; [|lia|lia].
  lia.
Qed.

Lemma Zdigits2_shift (m k : Z) :
  0 < m -> 0 <= k -> Zdigits2 (m * 2 ^ k) = Zdigits2 m + k.
Proof.
  intros Hm Hk. destruct (Zdigits2_bounds m Hm) as (D & B1 & B2).
  assert (P := pow2_pos k Hk).
  apply Zdigits2_unique; [nia|].
  replace (Zdigits2 m + k - 1) with (Zdigits2 m - 1 + k) by lia.
  rewrite !Z.pow_add_r by lia. nia.
Qed.

(** A negative or zero result is not above a positive float. *)
Lemma binary_round_aux_negative (mx ex : Z) (lx : location)
    (mc : positive) (ec : Z) :
  SFltb (S754_finite false mc ec)
        (binary_round_aux prec emax true mx ex lx) = false.
Proof.
  unfold binary_round_aux.
  destruct (shr_fexp prec emax mx ex lx) as [mrs1 e1].
  destruct (shr_fexp prec emax _ e1 loc_Exact) as [mrs2 e2].
  destruct (shr_m mrs2); try reflexivity.
  destruct (e2 <=? emax - prec); reflexivity.
Qed.

(** The same bound for [binary_normalize], which first aligns the
    significand on the exponent of its binade. *)
Lemma binary_normalize_upper (M e K : Z) (mc : positive) (ec : Z) :
  K <= e -> K <= ec -> K <= -1074 ->
  valid_binary (S754_finite false mc ec) = true ->
  M * 2 ^ (e - K) <= Zpos mc * 2 ^ (ec - K) ->
  valid_binary (binary_normalize prec emax M e false) = true ->
  SFltb (S754_finite false mc ec) (binary_normalize prec emax M e false)
  = false.
Proof.
  intros Ke Kc Km Vc H V. unfold binary_normalize in *.
  destruct M as [ | m | m]; [reflexivity | | ].
  - unfold binary_round in *.
    pose proof (shl_align_spec m e (fexp prec emax (Zpos (digits2_pos m) + e)))
      as S.
    destruct (shl_align m e _) as [mz ez]. destruct S as [Ez Mz].
    assert (F : -1074 <= fexp prec emax (Zpos (digits2_pos m) + e))
      by (fexp_unfold; lia).
    assert (Dz : Zdigits2 (Zpos mz) + ez = Zpos (digits2_pos m) + e).
    { rewrite Mz, Zdigits2_shift by lia. simpl Zdigits2. lia. }
    apply (binary_round_aux_upper (Zpos mz) ez K mc ec); try assumption; try lia.
    + rewrite Dz. lia.
    + rewrite Mz, <- Z.mul_assoc, <- Z.pow_add_r by lia.
      replace (e - ez + (ez - K)) with (e - K) by lia. exact H.
  - unfold binary_round.
    destruct (shl_align m e _) as [mz ez].
    apply binary_round_aux_negative.
Qed.

(** *** The subtraction [0.5 - d] *)

Lemma shl_align_fst (mx : positive) (ex ez : Z) :
  ez <= ex -> Zpos (fst (shl_align mx ex ez)) = Zpos mx * 2 ^ (ex - ez).
Proof.
  intros H. pose proof (shl_align_spec mx ex ez) as S.
  destruct (shl_align mx ex ez) as [mz ez']. destruct S as [E M].
  simpl fst. rewrite M. f_equal. f_equal. lia.
Qed.

Lemma SF64sub_finite sx mx ex sy my ey :
  SF64sub (S754_finite sx mx ex) (S754_finite sy my ey)
  = binary_normalize prec emax
      (cond_Zopp sx (Zpos (fst (shl_align mx ex (Z.min ex ey))))
       - cond_Zopp sy (Zpos (fst (shl_align my ey (Z.min ex ey)))))
      (Z.min ex ey) false.
Proof. reflexivity. Qed.

(** [0.5 - d] for a finite [d] whose magnitude, when [d] is negative,
    is at most [0.6 - 0.5] (the floats 0.6 and 0.5, exactly). *)
Lemma half_minus_bounded (s : bool) (m : positive) (e : Z) :
  valid_binary (S754_finite s m e) = true ->
  valid_binary (SF64sub (S754_finite false 4503599627370496 (-53))
                        (S754_finite s m e)) = true ->
  (s = true -> Zpos m * 2 ^ (e + 1074) <= 900719925474099 * 2 ^ 1021) ->
  SFltb (S754_finite false 5404319552844595 (-53))
        (SF64sub (S754_finite false 4503599627370496 (-53))
                 (S754_finite s m e)) = false.
Proof.
  intros Vd V B.
  rewrite SF64sub_finite in V |- *.
  apply valid_canonical in Vd. destruct Vd as [Cd _].
  apply canonical_bounds in Cd. destruct Cd as (E1 & M1 & _).
  rewrite !shl_align_fst in V |- * by lia.
  apply (binary_normalize_upper _ _ (-1074)); try assumption; try lia;
    [reflexivity|].
  clear V.
  set (ez := Z.min (-53) e) in *.
  rewrite Z.mul_sub_distr_r.
  assert (P := pow2_pos 1021 ltac:(lia)).
  assert (Pe := pow2_pos (e + 1074) ltac:(lia)).
  destruct s; unfold cond_Zopp; rewrite ?Z.mul_opp_l;
    rewrite <- !Z.mul_assoc, <- !Z.pow_add_r by lia;
    replace (-53 - ez + (ez - -1074)) with 1021 by lia;
    replace (e - ez + (ez - -1074)) with (e + 1074) by lia;
    replace (-53 - -1074) with 1021 by lia.
  - specialize (B eq_refl). lia.
  - nia.
Qed.

(** The subtraction of [control_ego]: for a deceleration factor of at
    least -0.1 the difference [0.5 - d], once rounded, does not exceed
    the float 0.6. *)
Lemma half_minus_le_06 (d : float) :
  (-0.1 <=? d)%float = true -> (0.6 <? 0.5 - d)%float = false.
Proof.
  intros H.
  pose proof (Prim2SF_valid (0.5 - d)%float) as V.
  pose proof (Prim2SF_valid d) as Vd.
  rewrite FloatAxioms.ltb_spec. rewrite FloatAxioms.leb_spec in H.
  rewrite sub_spec in V |- *.
  change (Prim2SF 0.6%float) with (S754_finite false 5404319552844595 (-53)).
  change (Prim2SF 0.5%float) with (S754_finite false 4503599627370496 (-53)) in *.
  change (Prim2SF (-0.1)%float) with (S754_finite true 7205759403792794 (-56)) in H.
  destruct (Prim2SF d) as [s | s | | s m e].
  - reflexivity.
  - destruct s; [discriminate H | reflexivity].
  - discriminate H.
  - destruct s; [|apply half_minus_bounded; [assumption .. | discriminate]].
    unfold SFleb, SFcompare in H.
    destruct (Z.compare_spec (-56) e) as [E | E | E]; try discriminate H.
    + (* the binade of 0.1: the two floats next to -0.1 are computed *)
      subst e. rewrite Pos.compare_cont_spec in H. simpl Datatypes.fst in H.
      assert (L : (m <= 7205759403792794)%positive).
      { apply Pos.compare_ge_iff.
        destruct (Pos.compare 7205759403792794 m); simpl in H; congruence. }
      destruct (Pos.eq_dec m 7205759403792794) as [-> | N1];
        [vm_compute; reflexivity|].
      destruct (Pos.eq_dec m 7205759403792793) as [-> | N2];
        [vm_compute; reflexivity|].
      assert (L' : Zpos m <= 7205759403792792).
      { apply Pos2Z.pos_le_pos in L.
        assert (Z1 : Zpos m <> 7205759403792794)
          by (intros Q; apply N1; now apply Pos2Z.inj).
        assert (Z2 : Zpos m <> 7205759403792793)
          by (intros Q; apply N2; now apply Pos2Z.inj).
        clear - L Z1 Z2. lia. }
      apply half_minus_bounded; try assumption. intros _.
      clear - L'.
      change (-56 + 1074) with 1018.
      change (2 ^ 1021) with (8 * 2 ^ 1018).
      assert (P := pow2_pos 1018 ltac:(lia)).
      revert P. generalize (2 ^ 1018). intros Q P. nia.
    + apply half_minus_bounded; try assumption. intros _.
      apply valid_canonical in Vd. destruct Vd as [Cd _].
      apply canonical_bounds in Cd. destruct Cd as (E1 & M1 & _).
      clear - E E1 M1.
      assert (Pe := pow2_pos (e + 1074) ltac:(lia)).
      assert (Le : 2 ^ (e + 1074) <= 2 ^ 1017)
        by (apply Z.pow_le_mono_r; lia).
      change (2 ^ 1021) with (16 * 2 ^ 1017).
      change (2 ^ 53) with 9007199254740992 in M1.
      assert (P := pow2_pos 1017 ltac:(lia)).
      revert P Le. generalize (2 ^ 1017). revert Pe.
      generalize (2 ^ (e + 1074)). intros Qe Pe Q P Le. nia.
Qed.

(** *** Division by a distance below 8 m *)

Lemma SFdiv_core_binary_spec (m1 : positive) (e1 : Z) (m2 : positive) (e2 : Z) :
  let e0 := Z.min (fexp prec emax (Zdigits2 (Zpos m1) + e1
                                   - (Zdigits2 (Zpos m2) + e2)))
                  (e1 - e2) in
  exists l,
    SFdiv_core_binary prec emax (Zpos m1) e1 (Zpos m2) e2
    = ((Zpos m1 * 2 ^ (e1 - e2 - e0)) / Zpos m2, e0, l).
Proof.
  intros e0. unfold SFdiv_core_binary. fold e0.
  assert (S : 0 <= e1 - e2 - e0) by (subst e0; lia).
  set (m' := match e1 - e2 - e0 with
             | 0 => Zpos m1
             | Zpos _ => Z.shiftl (Zpos m1) (e1 - e2 - e0)
             | Zneg _ => 0
             end).
  assert (M : m' = Zpos m1 * 2 ^ (e1 - e2 - e0)).
  { subst m'. destruct (e1 - e2 - e0) as [ | p | p] eqn:E.
    - simpl. lia.
    - now rewrite Z.shiftl_mul_pow2 by lia.
    - lia. }
  rewrite <- M. unfold Z.div.
  destruct (Z.div_eucl m' (Zpos m2)) as [q r]. now eexists.
Qed.

Lemma SF64div_finite sx mx ex sy my ey :
  SF64div (S754_finite sx mx ex) (S754_finite sy my ey)
  = let '(mz, ez, lz) := SFdiv_core_binary prec emax (Zpos mx) ex (Zpos my) ey in
    binary_round_aux prec emax (xorb sx sy) mz ez lz.
Proof. reflexivity. Qed.

(** A numerator in [8, 16) divided by a positive float below 8 is, once
    rounded, not below the float 0.8. *)
Lemma SF64div_not_below_08 (mn m : positive) (e : Z) :
  2 ^ 52 <= Zpos mn < 2 ^ 53 ->
  valid_binary (S754_finite false m e) = true ->
  e <= -50 ->
  valid_binary (SF64div (S754_finite false mn (-49)) (S754_finite false m e))
  = true ->
  SFltb (SF64div (S754_finite false mn (-49)) (S754_finite false m e))
        (S754_finite false 7205759403792794 (-53)) = false.
Proof.
  intros Hn Vd He V.
  rewrite SF64div_finite in V |- *.
  destruct (SFdiv_core_binary_spec mn (-49) m e) as [l EQ].
  cbv zeta in EQ. rewrite EQ in V |- *. clear EQ. simpl xorb in *.
  apply valid_canonical in Vd. destruct Vd as [Cd _].
  pose proof (canonical_bounds _ _ Cd) as (E1 & M1 & _).
  destruct (Zdigits2_bounds (Zpos m) ltac:(lia)) as (D0 & D1 & D2).
  destruct (Zdigits2_bounds (Zpos mn) ltac:(lia)) as (_ & N1 & N2).
  assert (Dn : Zdigits2 (Zpos mn) = 53) by (apply Zdigits2_unique; simpl; lia).
  assert (Dm : Zdigits2 (Zpos m) <= 53).
  { apply canonical_fexp in Cd. fexp_unfold. lia. }
  rewrite Dn in *.
  set (d2 := Zdigits2 (Zpos m)) in *.
  assert (E0 : Z.min (fexp prec emax (53 + -49 - (d2 + e))) (-49 - e)
               = -49 - e - d2) by (fexp_unfold; lia).
  rewrite E0 in *.
  replace (-49 - e - (-49 - e - d2)) with d2 in * by lia.
  set (q := Zpos mn * 2 ^ d2 / Zpos m) in *.
  assert (P2 := pow2_pos d2 ltac:(lia)).
  assert (Q := Z.div_mod (Zpos mn * 2 ^ d2) (Zpos m) ltac:(lia)).
  assert (B := Z.mod_pos_bound (Zpos mn * 2 ^ d2) (Zpos m) ltac:(lia)).
  fold q in Q.
  assert (Hq : Zpos mn <= q).
  { apply Z.div_le_lower_bound; [lia|]. nia. }
  assert (Dq : 53 <= Zdigits2 q).
  { destruct (Zdigits2_bounds q ltac:(lia)) as (_ & _ & U).
    assert (L : 2 ^ 52 < 2 ^ Zdigits2 q) by lia.
    apply Z.pow_lt_mono_r_iff in L; [lia | lia|].
    destruct (Zdigits2_bounds q ltac:(lia)); lia. }
  apply (binary_round_aux_lower q (-49 - e - d2) (-1074) l); try assumption;
    try lia; try reflexivity.
  - fexp_unfold. lia.
  - clear V.
    replace (-49 - e - d2 - -1074) with (1025 - e - d2) by lia.
    change (-53 - -1074) with 1021.
    (* compare after multiplying by the divisor *)
    apply Z.mul_lt_mono_pos_r with (Zpos m); [lia|].
    apply Z.le_lt_trans with (Zpos mn * 2 ^ d2 * 2 ^ (1025 - e - d2)).
    + assert (EP : 2 ^ d2 * 2 ^ (1025 - e - d2)
                   = 2 ^ 54 * 2 ^ 1021 * 2 ^ (-50 - e))
        by (rewrite <- !Z.pow_add_r by lia; f_equal; lia).
      rewrite <- (Z.mul_assoc (Zpos mn)), EP. clear EP.
      assert (P := pow2_pos 1021 ltac:(lia)).
      assert (Pe := pow2_pos (-50 - e) ltac:(lia)).
      revert P. generalize (2 ^ 1021). revert Pe. generalize (2 ^ (-50 - e)).
      intros Qe Pe Q1 P1.
      change (2 ^ 54) with 18014398509481984.
      change (2 ^ 53) with 9007199254740992 in *.
      change (2 ^ 52) with 4503599627370496 in *.
      assert (H : 7205759403792794 * Zpos m <= Zpos mn * 18014398509481984)
        by lia.
      apply Z.le_trans with (Zpos mn * 18014398509481984 * Q1).
      * replace (7205759403792794 * Q1 * Zpos m)
          with (7205759403792794 * Zpos m * Q1) by ring.
        apply Z.mul_le_mono_nonneg_r; lia.
      * replace (Zpos mn * (18014398509481984 * Q1 * Qe))
          with (Zpos mn * 18014398509481984 * Q1 * Qe) by ring.
        assert (X : 0 <= Zpos mn * 18014398509481984 * Q1)
          by (apply Z.mul_nonneg_nonneg; lia).
        revert X. generalize (Zpos mn * 18014398509481984 * Q1). intros X HX.
        nia.
    + assert (P := pow2_pos (1025 - e - d2) ltac:(lia)). nia.
Qed.

Lemma div_not_below_08 (n d : float) (mn : positive) :
  Prim2SF n = S754_finite false mn (-49) ->
  (0 <? d)%float = true -> (d <? 8.0)%float = true ->
  (n / d <? 0.8)%float = false.
Proof.
  intros En H0 H8.
  pose proof (Prim2SF_valid (n / d)%float) as V.
  pose proof (Prim2SF_valid d) as Vd.
  pose proof (Prim2SF_valid n) as Vn.
  rewrite FloatAxioms.ltb_spec in *. rewrite div_spec in V |- *.
  rewrite En in *.
  change (Prim2SF 0.8%float) with (S754_finite false 7205759403792794 (-53)).
  change (Prim2SF 8.0%float) with (S754_finite false 4503599627370496 (-49)) in H8.
  change (Prim2SF 0%float) with (S754_zero false) in H0.
  destruct (Prim2SF d) as [s | s | | s m e].
  - discriminate H0.
  - destruct s; [discriminate H0 | discriminate H8].
  - discriminate H0.
  - destruct s; [discriminate H0|].
    apply SF64div_not_below_08; try assumption.
    + apply valid_finite_inv in Vn. destruct Vn as (_ & U & [L | L]); [lia|].
      split; assumption.
    + apply valid_finite_inv in Vd. destruct Vd as (_ & _ & N).
      unfold SFltb, SFcompare in H8.
      destruct (Z.compare_spec e (-49)) as [E | E | E]; try discriminate H8.
      * subst e. exfalso. destruct N as [N | N]; [lia|].
        rewrite Pos.compare_cont_spec in H8. simpl in H8.
        change (2 ^ 52) with 4503599627370496 in N.
        apply Pos2Z.pos_le_pos in N.
        apply Pos.compare_ge_iff in N.
        destruct (Pos.compare m 4503599627370496); try discriminate H8.
        now apply N.
      * lia.
Qed.

End Binary64.

(** ** Signs of rounded results *)

Module Sign.

Local Open Scope Z_scope.

(** Rounding a non-negative significand with a positive sign gives a
    number that is not below zero, and never a NaN. *)
Lemma binary_round_aux_nonneg (mx ex : Z) (lx : location) :
  0 <= mx ->
  SFleb (S754_zero false) (binary_round_aux prec emax false mx ex lx) = true.
Proof.
  intros Hm. unfold binary_round_aux.
  pose proof (Binary64.shr_fexp_spec mx ex lx Hm) as S1. cbv zeta in S1.
  destruct (shr_fexp prec emax mx ex lx) as [mrs1 e1].
  destruct S1 as (_ & M1 & _).
  destruct (Binary64.round_nearest_even_bounds (shr_m mrs1)
              (loc_of_shr_record mrs1)) as [R1 _].
  set (rnd := round_nearest_even (shr_m mrs1) (loc_of_shr_record mrs1)) in *.
  assert (N1 : 0 <= shr_m mrs1).
  { rewrite M1. apply Z.div_pos; [exact Hm|]. apply Binary64.pow2_pos. lia. }
  assert (Hr : 0 <= rnd) by lia.
  pose proof (Binary64.shr_fexp_spec rnd e1 loc_Exact Hr) as S2. cbv zeta in S2.
  destruct (shr_fexp prec emax rnd e1 loc_Exact) as [mrs2 e2].
  destruct S2 as (_ & M2 & _).
  assert (N2 : 0 <= shr_m mrs2).
  { rewrite M2. apply Z.div_pos; [exact Hr|]. apply Binary64.pow2_pos. lia. }
  destruct (shr_m mrs2) as [ | m | m]; [reflexivity | | lia].
  now destruct (e2 <=? emax - prec).
Qed.

Lemma SFdiv_core_binary_nonneg (m1 : positive) (e1 : Z) (m2 : positive) (e2 : Z) :
  let '(mz, _, _) := SFdiv_core_binary prec emax (Zpos m1) e1 (Zpos m2) e2 in
  0 <= mz.
Proof.
  destruct (Binary64.SFdiv_core_binary_spec m1 e1 m2 e2) as [l ->].
  apply Z.div_pos; [|lia].
  apply Z.mul_nonneg_nonneg; [lia|]. apply Z.pow_nonneg. lia.
Qed.

Lemma SF64div_nonneg (x y : spec_float) :
  SFleb (S754_zero false) x = true ->
  SFltb x (S754_infinity false) = true ->
  SFltb (S754_zero false) y = true ->
  SFleb (S754_zero false) (SF64div x y) = true.
Proof.
  intros Hx Fx Hy.
  destruct y as [sy | sy | | sy my ey]; try discriminate Hy;
    destruct sy; try discriminate Hy;
    destruct x as [sx | sx | | sx mx ex]; try discriminate Hx;
    try (destruct sx; try discriminate Hx; try discriminate Fx; reflexivity).
  destruct sx; [discriminate Hx|].
  rewrite Binary64.SF64div_finite.
  pose proof (SFdiv_core_binary_nonneg mx ex my ey) as N.
  destruct (SFdiv_core_binary prec emax (Zpos mx) ex (Zpos my) ey) as [[mz ez] lz].
  simpl xorb. now apply binary_round_aux_nonneg.
Qed.

End Sign.

(** ** The subtraction [0.5 - d] from below *)

Module HalfMinus.

Local Open Scope Z_scope.

(** Lower bound for [binary_normalize]: the rounding of a positive
    value that is at least a float [c] is not below [c]. *)
Lemma binary_normalize_lower (m : positive) (e K : Z) (mc : positive) (ec : Z) :
  K <= e -> K <= ec -> K <= -1074 ->
  valid_binary (S754_finite false mc ec) = true ->
  Zpos mc * 2 ^ (ec - K) <= Zpos m * 2 ^ (e - K) ->
  valid_binary (binary_normalize prec emax (Zpos m) e false) = true ->
  SFltb (binary_normalize prec emax (Zpos m) e false)
        (S754_finite false mc ec) = false.
Proof.
  intros Ke Kc Km Vc H V. unfold binary_normalize, binary_round in *.
  pose proof (Binary64.shl_align_spec m e
                (fexp prec emax (Zpos (digits2_pos m) + e))) as S.
  destruct (shl_align m e _) as [mz ez]. destruct S as [Ez Mz].
  assert (F : -1074 <= fexp prec emax (Zpos (digits2_pos m) + e))
    by (Binary64.fexp_unfold; lia).
  assert (Dz : Zdigits2 (Zpos mz) + ez = Zpos (digits2_pos m) + e).
  { rewrite Mz, Binary64.Zdigits2_shift by lia. simpl Zdigits2. lia. }
  apply (Binary64.binary_round_aux_lower (Zpos mz) ez K loc_Exact mc ec);
    try assumption; try lia.
  - rewrite Dz. lia.
  - rewrite Mz, Z.mul_add_distr_r, <- Z.mul_assoc, <- Z.pow_add_r by lia.
    replace (e - ez + (ez - K)) with (e - K) by lia.
    assert (P := Binary64.pow2_pos (ez - K) ltac:(lia)). lia.
Qed.

(** The rounding of a positive value is not negative and not a NaN. *)
Lemma binary_normalize_nonneg (m : positive) (e : Z) :
  SFleb (S754_zero false) (binary_normalize prec emax (Zpos m) e false) = true.
Proof.
  unfold binary_normalize, binary_round.
  destruct (shl_align m e _) as [mz ez].
  apply Sign.binary_round_aux_nonneg. lia.
Qed.

(** [0.5 - d] for a negative finite [d] of magnitude at least
    [0.5 + 2 ^ -52] is at least [1 + 2 ^ -52]. *)
Lemma half_minus_lower (m : positive) (e : Z) :
  valid_binary (S754_finite true m e) = true ->
  valid_binary (SF64sub (S754_finite false 4503599627370496 (-53))
                        (S754_finite true m e)) = true ->
  4503599627370498 * 2 ^ 1021 <= Zpos m * 2 ^ (e + 1074) ->
  SFltb (SF64sub (S754_finite false 4503599627370496 (-53))
                 (S754_finite true m e))
        (S754_finite false 4503599627370497 (-52)) = false
  /\ SFleb (S754_zero false)
           (SF64sub (S754_finite false 4503599627370496 (-53))
                    (S754_finite true m e)) = true.
Proof.
  intros Vd V B.
  rewrite Binary64.SF64sub_finite in V |- *.
  apply Binary64.valid_canonical in Vd. destruct Vd as [Cd _].
  apply Binary64.canonical_bounds in Cd. destruct Cd as (E1 & M1 & _).
  set (ez := Z.min (-53) e) in *.
  assert (S1 := Binary64.shl_align_fst 4503599627370496 (-53) ez ltac:(lia)).
  assert (S2 := Binary64.shl_align_fst m e ez ltac:(lia)).
  revert V S1 S2.
  generalize (fst (shl_align 4503599627370496 (-53) ez)).
  generalize (fst (shl_align m e ez)). intros b a V S1 S2.
  unfold cond_Zopp in *.
  replace (Zpos a - - Zpos b) with (Zpos (a + b)) in * by lia.
  split; [|apply binary_normalize_nonneg].
  apply (binary_normalize_lower _ _ (-1074)); try assumption; try lia;
    [reflexivity|].
  clear V.
  rewrite Pos2Z.inj_add, S1, S2, Z.mul_add_distr_r.
  rewrite <- !Z.mul_assoc, <- !Z.pow_add_r by lia.
  replace (-53 - ez + (ez - -1074)) with 1021 by lia.
  replace (e - ez + (ez - -1074)) with (e + 1074) by lia.
  change (-52 - -1074) with 1022. change (2 ^ 1022) with (2 * 2 ^ 1021).
  assert (P := Binary64.pow2_pos 1021 ltac:(lia)).
  revert B P. generalize (2 ^ 1021). generalize (Zpos m * 2 ^ (e + 1074)).
  intros v q B P. lia.
Qed.

(** Reading a comparison off the test that [SFltb] makes. *)
Lemma ltb_opp_true (x : comparison) :
  match Some (CompOpp x) with Some Lt => true | _ => false end = true ->
  x = Gt.
Proof. now destruct x. Qed.

Lemma ltb_false (x : comparison) :
  match Some x with Some Lt => true | _ => false end = false -> x <> Lt.
Proof. now destruct x. Qed.

Lemma ltb_true (x : comparison) :
  x = Lt -> match Some x with Some Lt => true | _ => false end = true.
Proof. now intros ->. Qed.

(** A negative float below [-(0.5 + 2 ^ -53)] has magnitude at least
    [0.5 + 2 ^ -52]. *)
Lemma below_half_magnitude (m : positive) (e : Z) :
  valid_binary (S754_finite true m e) = true ->
  SFltb (S754_finite true m e) (S754_finite true 4503599627370497 (-53)) = true ->
  4503599627370498 * 2 ^ 1021 <= Zpos m * 2 ^ (e + 1074).
Proof.
  intros Vd H.
  apply Binary64.valid_canonical in Vd. destruct Vd as [Cd _].
  apply Binary64.canonical_bounds in Cd. destruct Cd as (E1 & M1 & M2).
  unfold SFltb, SFcompare in H.
  destruct (Z.compare_spec e (-53)) as [E | E | E]; try discriminate H.
  - subst e. apply ltb_opp_true in H.
    apply (Pos.gt_lt m 4503599627370497) in H.
    apply Pos2Z.pos_lt_pos in H.
    replace (-53 + 1074) with 1021 by reflexivity.
    apply Z.mul_le_mono_nonneg_r; [apply Z.pow_nonneg; lia|].
    clear - H. lia.
  - clear H. assert (M : 2 ^ 52 <= Zpos m) by lia.
    assert (L : 2 ^ 1022 <= 2 ^ (e + 1074)) by (apply Z.pow_le_mono_r; lia).
    change (2 ^ 1022) with (2 * 2 ^ 1021) in L.
    change (2 ^ 52) with 4503599627370496 in M.
    assert (P := Binary64.pow2_pos 1021 ltac:(lia)).
    clear - M L P. revert L P. generalize (2 ^ 1021). generalize (2 ^ (e + 1074)).
    intros u q L P.
    apply Z.le_trans with (4503599627370496 * u).
    + clear M. lia.
    + apply Z.mul_le_mono_nonneg_r; [lia | exact M].
Qed.

(** A number that is not below [1 + 2 ^ -52] is above 1 and above 0.6. *)
Lemma above_one (y : spec_float) :
  SFleb (S754_zero false) y = true ->
  SFltb y (S754_finite false 4503599627370497 (-52)) = false ->
  SFltb (S754_finite false 4503599627370496 (-52)) y = true
  /\ SFltb (S754_finite false 5404319552844595 (-53)) y = true.
Proof.
  intros N L.
  destruct y as [s | s | | s m e].
  - destruct s; discriminate L.
  - destruct s; [discriminate N | split; reflexivity].
  - discriminate N.
  - destruct s; [discriminate N|]. clear N.
    unfold SFltb, SFcompare in *.
    rewrite (Z.compare_antisym e (-52)).
    destruct (Z.compare_spec e (-52)) as [E | E | E]; try discriminate L.
    + subst e. unfold CompOpp at 1. cbv iota.
      change (-53 ?= -52) with Lt. split; [|reflexivity].
      apply ltb_false in L. apply ltb_true.
      apply (Pos.lt_le_trans _ 4503599627370497); [reflexivity|].
      apply Pos.le_nlt. exact L.
    + unfold CompOpp at 1. cbv iota. split; [reflexivity|].
      destruct (Z.compare_spec (-53) e) as [G | G | G];
        [exfalso; lia | reflexivity | exfalso; lia].
Qed.

End HalfMinus.

(** ** The codec *)

Ltac pow_consts :=
  change (2 ^ 63)%Z with 9223372036854775808%Z in *;
  change (2 ^ 53)%Z with 9007199254740992%Z in *;
  change (2 ^ 52)%Z with 4503599627370496%Z in *;
  change (2 ^ 51)%Z with 2251799813685248%Z in *;
  change (2 ^ 11)%Z with 2048%Z in *.

Lemma bits_of_SF_range f :
  valid_binary f = true -> (0 <= bits_of_SF f < 2 ^ 64)%Z.
Proof.
  destruct f as [s | s | | s m e]; intros V.
  - destruct s; simpl; lia.
  - destruct s; simpl; lia.
  - simpl; lia.
  - apply Binary64.valid_finite_inv in V. destruct V as (E & M & N).
    unfold bits_of_SF, sign_bit. change (2 ^ 64)%Z with 18446744073709551616%Z.
    pow_consts.
    destruct (Z.ltb_spec (Zpos m) 4503599627370496); destruct s; lia.
Qed.

Lemma testbit_63 (s : bool) (y : Z) :
  (0 <= y < 2 ^ 63)%Z -> Z.testbit (sign_bit s + y) 63 = s.
Proof.
  intros H. rewrite Z.testbit_odd, Z.shiftr_div_pow2 by lia.
  assert (E : ((sign_bit s + y) / 2 ^ 63 = if s then 1 else 0)%Z).
  { unfold sign_bit. destruct s.
    - symmetry. apply (Z.div_unique _ _ 1 y); lia.
    - symmetry. apply (Z.div_unique _ _ 0 y); lia. }
  rewrite E. now destruct s.
Qed.

Lemma split_bits (s : bool) (ex fr : Z) :
  (0 <= ex < 2 ^ 11)%Z -> (0 <= fr < 2 ^ 52)%Z ->
  let x := (sign_bit s + (ex * 2 ^ 52 + fr))%Z in
  Z.testbit x 63 = s /\ ((x / 2 ^ 52) mod 2 ^ 11 = ex)%Z
  /\ (x mod 2 ^ 52 = fr)%Z.
Proof.
  intros He Hf x. subst x. split; [|split].
  - apply testbit_63. pow_consts. lia.
  - assert (E : ((sign_bit s + (ex * 2 ^ 52 + fr)) / 2 ^ 52
                 = (if s then 2 ^ 11 else 0) + ex)%Z).
    { symmetry. apply (Z.div_unique _ _ _ fr); [lia|].
      unfold sign_bit. pow_consts. destruct s; lia. }
    rewrite E. symmetry.
    apply (Z.mod_unique _ _ (if s then 1 else 0)); [lia|].
    pow_consts. destruct s; lia.
  - symmetry.
    apply (Z.mod_unique _ _ ((if s then 2 ^ 11 else 0) + ex)); [lia|].
    unfold sign_bit. pow_consts. destruct s; lia.
Qed.

Lemma SF_of_bits_of_SF f :
  valid_binary f = true -> SF_of_bits (bits_of_SF f) = f.
Proof.
  destruct f as [s | s | | s m e]; intros V.
  - now destruct s.
  - now destruct s.
  - reflexivity.
  - apply Binary64.valid_finite_inv in V. destruct V as (E & M & N).
    unfold bits_of_SF, SF_of_bits.
    destruct (Z.ltb_spec (Zpos m) (2 ^ 52)) as [L | L].
    + assert (e = (-1074)%Z) by lia. subst e.
      destruct (split_bits s 0 (Zpos m)) as (B1 & B2 & B3);
        [pow_consts; lia | lia |].
      cbv zeta in B1, B2, B3.
      replace (sign_bit s + Zpos m)%Z
        with (sign_bit s + (0 * 2 ^ 52 + Zpos m))%Z by lia.
      rewrite B1, B2, B3. reflexivity.
    + destruct (split_bits s (e + 1075) (Zpos m - 2 ^ 52)) as (B1 & B2 & B3);
        [pow_consts; lia | pow_consts; lia |].
      cbv zeta in B1, B2, B3. rewrite B1, B2, B3.
      destruct (Z.eqb_spec (e + 1075) 0); [lia|].
      destruct (Z.eqb_spec (e + 1075) 2047); [lia|].
      f_equal; [|lia].
      replace (Zpos m - 2 ^ 52 + 2 ^ 52)%Z with (Zpos m) by lia. reflexivity.
Qed.

Lemma Z_of_byte_of_Z (z : Z) : Z_of_byte (byte_of_Z z) = (z mod 256)%Z.
Proof.
  unfold Z_of_byte, byte_of_Z.
  assert (B : (0 <= z mod 256 < 256)%Z) by (apply Z.mod_pos_bound; lia).
  destruct (Byte.of_N (Z.to_N (z mod 256))) as [b | ] eqn:E.
  - apply Byte.to_of_N in E. rewrite E. lia.
  - apply Byte.of_N_None_iff in E. lia.
Qed.

Lemma le_int_le_bytes (n : nat) : forall z,
  (0 <= z < 256 ^ Z.of_nat n)%Z -> le_int (le_bytes n z) = z.
Proof.
  induction n as [ | n IH]; intros z H.
  - simpl in *. lia.
  - cbn [le_bytes le_int]. rewrite Z_of_byte_of_Z.
    rewrite Nat2Z.inj_succ, Z.pow_succ_r in H by lia.
    rewrite IH.
    + pose proof (Z.div_mod z 256). lia.
    + split; [apply Z.div_pos; lia|].
      apply Z.div_lt_upper_bound; lia.
Qed.

(** Unpacking what was packed gives the float back, bit for bit. *)
Lemma unpack_d_pack_d (x : float) : unpack_d (pack_d x) = Ret x.
Proof.
  unfold unpack_d, pack_d. cbn [le_bytes length Nat.eqb].
  change (byte_of_Z (bits_of_SF (Prim2SF x))
          :: byte_of_Z (bits_of_SF (Prim2SF x) / 256)
          :: _) with (le_bytes 8 (bits_of_SF (Prim2SF x))).
  rewrite le_int_le_bytes
    by (apply bits_of_SF_range, Prim2SF_valid).
  now rewrite SF_of_bits_of_SF, SF2Prim_Prim2SF by apply Prim2SF_valid.
Qed.

Lemma recv_doubles_packets conn (xs : list float) : forall data s,
  fst (recv_doubles conn (length xs) data
         (with_recv (packets (length xs) (concat (map pack_d xs))) s))
  = Ret (data ++ xs).
Proof.
  induction xs as [ | x xs IH]; intros data s.
  - simpl. now rewrite app_nil_r.
  - cbn [length recv_doubles map concat packets].
    change (firstn 8 (pack_d x ++ concat (map pack_d xs))) with (pack_d x).
    change (skipn 8 (pack_d x ++ concat (map pack_d xs)))
      with (concat (map pack_d xs)).
    unfold bind at 1. unfold recv, with_recv at 1.
    cbn [recv_script tl sendall_script wire_out stdout].
    change (firstn 8 (pack_d x)) with (pack_d x).
    change (Nat.ltb (length (pack_d x)) 8) with false. cbv iota.
    unfold bind, lift. rewrite unpack_d_pack_d.
    specialize (IH (data ++ [x]) s). unfold with_recv in IH.
    cbn [recv_script tl sendall_script wire_out stdout] in IH.
    rewrite <- app_assoc in IH. exact IH.
Qed.

(** C9. Round trip of the telemetry codec: the three fields that
    [send_data] writes, in the order distance, lead velocity, ego
    velocity, as consecutive 8-byte floating values, are recovered bit
    for bit by the positional 8-byte decoding of [receive_data]. *)
Theorem telemetry_round_trip (conn : socket) (data : telemetry) :
  let sent := wire_out (snd (send_data conn data quiet)) in
  sent = pack_d (MIO_Distance data) ++ pack_d (MIO_Velocity data)
         ++ pack_d (Ego_Velocity data)
  /\ length sent = 24%nat
  /\ fst (recv_doubles conn 3 [] (with_recv (packets 3 sent) quiet))
     = Ret [MIO_Distance data; MIO_Velocity data; Ego_Velocity data].
Proof.
  intros sent.
  assert (E : sent = concat (map pack_d [MIO_Distance data; MIO_Velocity data;
                                         Ego_Velocity data])).
  { reflexivity. }
  split; [reflexivity | split; [reflexivity|]].
  rewrite E.
  exact (recv_doubles_packets conn
           [MIO_Distance data; MIO_Velocity data; Ego_Velocity data] [] quiet).
Qed.


(** ** Throttle and brake after warm-up *)

Lemma nonneg_ge_minus_01 (x : float) :
  (0 <=? x) = true -> (-0.1 <=? x) = true.
Proof.
  float_spec.
  change (Prim2SF 0) with (S754_zero false).
  change (Prim2SF (-0.1)) with (S754_finite true 7205759403792794 (-56)).
  destruct (Prim2SF x) as [s | s | | s m e]; simpl; try discriminate;
    destruct s; simpl; try discriminate; reflexivity.
Qed.

Lemma lt_08_le_1 (x : float) : (x <? 0.8) = true -> (x <=? 1) = true.
Proof.
  float_spec.
  change (Prim2SF 0.8) with (S754_finite false 7205759403792794 (-53)).
  change (Prim2SF 1) with (S754_finite false 4503599627370496 (-52)).
  intros H.
  destruct (Prim2SF x) as [s | s | | s m e].
  - now destruct s.
  - now destruct s.
  - discriminate H.
  - destruct s; [reflexivity|].
    unfold SFcompare in *.
    destruct (Z.compare_spec e (-53)) as [E | E | E]; try discriminate H.
    + subst e. reflexivity.
    + destruct (Z.compare_spec e (-52)) as [E' | E' | E'];
        try reflexivity; lia.
Qed.

Lemma py_min_08_ge_minus_01 (x : float) :
  (-0.1 <=? x) = true -> (-0.1 <=? py_min 0.8 x) = true.
Proof.
  intros H. unfold py_min. destruct (x <? 0.8); [exact H | reflexivity].
Qed.

(** After warm-up and without a full-brake condition, [control_ego]
    takes its second branch. *)
Lemma control_ego_progressive sim_time sim_data collision :
  full_brake_condition sim_time sim_data collision = false ->
  control_ego sim_time sim_data collision
  = {| throttle := py_max 0.6 (0.5 - py_min 0.8 (Deceleration sim_data));
       steer := 0.0;
       brake := py_min 0.8 (py_min 0.8 (Deceleration sim_data)) |}.
Proof.
  unfold full_brake_condition, control_ego.
  destruct (2.0 <? sim_time), (Emergency_Brake sim_data),
    (egoCarStop sim_data), collision; simpl; try discriminate. reflexivity.
Qed.

Lemma throttle_06 (x : float) :
  (-0.1 <=? x) = true -> py_max 0.6 (0.5 - py_min 0.8 x) = 0.6.
Proof.
  intros H. unfold py_max.
  now rewrite (Binary64.half_minus_le_06 _ (py_min_08_ge_minus_01 _ H)).
Qed.

(** C10. After warm-up and without a full-brake condition, a commanded
    deceleration of at least -0.1 gives a throttle of exactly 0.6,
    whatever the deceleration: only the brake output depends on it. *)
Theorem throttle_is_constant sim_time sim_data collision :
  full_brake_condition sim_time sim_data collision = false ->
  (-0.1 <=? Deceleration sim_data) = true ->
  throttle (control_ego sim_time sim_data collision) = 0.6
  /\ brake (control_ego sim_time sim_data collision)
     = py_min 0.8 (py_min 0.8 (Deceleration sim_data))
  /\ steer (control_ego sim_time sim_data collision) = 0.
Proof.
  intros F H. rewrite (control_ego_progressive _ _ _ F). simpl.
  split; [|split; reflexivity]. now apply throttle_06.
Qed.

Lemma throttle_is_constant_witness :
  let frame d := {| egoCarStop := false; FCW_Activate := true;
                    Deceleration := d; AEB_Status := true;
                    Emergency_Brake := false |} in
  throttle (control_ego 3.0 (frame 0.3) false) = 0.6
  /\ throttle (control_ego 3.0 (frame 0.7) false) = 0.6.
Proof.
  intros frame. split.
  - exact (proj1 (throttle_is_constant 3.0 (frame 0.3) false eq_refl eq_refl)).
  - exact (proj1 (throttle_is_constant 3.0 (frame 0.7) false eq_refl eq_refl)).
Defined.

(** A deceleration below the double next below -0.5 drives [0.5 - d]
    above 1. *)
Lemma half_minus_above_one (d : float) :
  (d <? -0.5000000000000001) = true ->
  (1 <? 0.5 - d) = true /\ (0.6 <? 0.5 - d) = true.
Proof.
  intros H.
  pose proof (Prim2SF_valid (0.5 - d)) as V.
  pose proof (Prim2SF_valid d) as Vd.
  rewrite !FloatAxioms.ltb_spec in *. rewrite sub_spec in V |- *.
  change (Prim2SF 0.6) with (S754_finite false 5404319552844595 (-53)).
  change (Prim2SF 1) with (S754_finite false 4503599627370496 (-52)).
  change (Prim2SF 0.5) with (S754_finite false 4503599627370496 (-53)) in *.
  change (Prim2SF (-0.5000000000000001))
    with (S754_finite true 4503599627370497 (-53)) in H.
  destruct (Prim2SF d) as [s | s | | s m e]; try discriminate H;
    try (destruct s; try discriminate H; split; reflexivity).
  destruct s; [|discriminate H].
  pose proof (HalfMinus.below_half_magnitude m e Vd H) as B.
  destruct (HalfMinus.half_minus_lower m e Vd V B) as [L N].
  exact (HalfMinus.above_one _ N L).
Qed.

Lemma below_half_below_zero (d : float) :
  (d <? -0.5000000000000001) = true -> (d <? 0) = true.
Proof.
  float_spec.
  change (Prim2SF (-0.5000000000000001))
    with (S754_finite true 4503599627370497 (-53)).
  change (Prim2SF 0) with (S754_zero false).
  intros H.
  destruct (Prim2SF d) as [s | s | | s m e].
  - destruct s; discriminate H.
  - destruct s; [reflexivity | discriminate H].
  - discriminate H.
  - destruct s; [reflexivity | discriminate H].
Qed.

Lemma negative_below_08 (d : float) : (d <? 0) = true -> (d <? 0.8) = true.
Proof.
  float_spec.
  change (Prim2SF 0.8) with (S754_finite false 7205759403792794 (-53)).
  change (Prim2SF 0) with (S754_zero false).
  intros H.
  destruct (Prim2SF d) as [s | s | | s m e].
  - destruct s; discriminate H.
  - destruct s; [reflexivity | discriminate H].
  - discriminate H.
  - destruct s; [reflexivity | discriminate H].
Qed.

Lemma negative_not_nonneg (d : float) : (d <? 0) = true -> (0 <=? d) = false.
Proof.
  float_spec. change (Prim2SF 0) with (S754_zero false).
  destruct (Prim2SF d) as [s | s | | s m e]; simpl; try discriminate;
    destruct s; simpl; try discriminate; reflexivity.
Qed.

(** C7, as the code has it.  After warm-up and without a full-brake
    condition, throttle = max(0.6, 0.5 - d) and brake = min(0.8, d) with
    d = min(0.8, deceleration); both lie in [0, 1] whenever the
    deceleration is at least 0.  Nothing clamps from below: every
    negative deceleration gives a brake equal to it, hence negative and
    outside [0, 1], and every deceleration below -0.5000000000000001
    (the double next below -0.5) gives a throttle above 1. *)
Theorem progressive_braking sim_time sim_data collision :
  full_brake_condition sim_time sim_data collision = false ->
  let d := py_min 0.8 (Deceleration sim_data) in
  let c := control_ego sim_time sim_data collision in
  throttle c = py_max 0.6 (0.5 - d)
  /\ brake c = py_min 0.8 d
  /\ ((0 <=? Deceleration sim_data) = true -> in_unit_range c = true)
  /\ ((Deceleration sim_data <? 0) = true ->
      brake c = Deceleration sim_data
      /\ (brake c <? 0) = true
      /\ in_unit_range c = false)
  /\ ((Deceleration sim_data <? -0.5000000000000001) = true ->
      (1 <? throttle c) = true).
Proof.
  intros F d c. subst c. rewrite (control_ego_progressive _ _ _ F). simpl.
  split; [reflexivity | split; [reflexivity|]].
  split; [|split].
  - intros H. unfold in_unit_range. simpl.
    rewrite (throttle_06 _ (nonneg_ge_minus_01 _ H)).
    unfold py_min. destruct (Deceleration sim_data <? 0.8) eqn:L.
    + rewrite L, H, (lt_08_le_1 _ L). reflexivity.
    + reflexivity.
  - intros H. pose proof (negative_below_08 _ H) as L.
    assert (B : py_min 0.8 (py_min 0.8 (Deceleration sim_data))
                = Deceleration sim_data).
    { unfold py_min. now rewrite L, L. }
    split; [exact B|]. split; [now rewrite B|].
    unfold in_unit_range. simpl brake. rewrite B.
    rewrite (negative_not_nonneg _ H). now rewrite andb_false_r.
  - intros H. subst d.
    pose proof (negative_below_08 _ (below_half_below_zero _ H)) as L.
    unfold py_min at 1. rewrite L.
    destruct (half_minus_above_one _ H) as [A B].
    unfold py_max. now rewrite B.
Qed.

Lemma progressive_braking_witness :
  let frame d := {| egoCarStop := false; FCW_Activate := true;
                    Deceleration := d; AEB_Status := true;
                    Emergency_Brake := false |} in
  (brake (control_ego 3.0 (frame 0.3) false) = 0.3
   /\ in_unit_range (control_ego 3.0 (frame 0.3) false) = true)
  /\ (brake (control_ego 3.0 (frame (-0.75)) false) = -0.75
      /\ in_unit_range (control_ego 3.0 (frame (-0.75)) false) = false
      /\ (1 <? throttle (control_ego 3.0 (frame (-0.75)) false)) = true).
Proof.
  intros frame. split.
  - destruct (progressive_braking 3.0 (frame 0.3) false eq_refl)
      as (_ & B & R & _).
    split; [exact B | exact (R eq_refl)].
  - destruct (progressive_braking 3.0 (frame (-0.75)) false eq_refl)
      as (_ & _ & _ & N & T).
    destruct (N eq_refl) as (B & _ & R).
    split; [exact B | split; [exact R | exact (T eq_refl)]].
Defined.

(** C7 as stated fails: a deceleration of -5 received after
    warm-up, with no full-brake condition, gives throttle 5.5 and brake
    -5, both outside [0, 1]. *)
Lemma negative_deceleration_not_clamped :
  let sim_data := {| egoCarStop := false; FCW_Activate := false;
                     Deceleration := -5; AEB_Status := false;
                     Emergency_Brake := false |} in
  full_brake_condition 3.0 sim_data false = false
  /\ throttle (control_ego 3.0 sim_data false) = 5.5
  /\ brake (control_ego 3.0 sim_data false) = -5
  /\ (1 <? throttle (control_ego 3.0 sim_data false)) = true
  /\ (brake (control_ego 3.0 sim_data false) <? 0) = true
  /\ in_unit_range (control_ego 3.0 sim_data false) = false.
Proof. vm_compute. repeat split. Qed.


(** ** The locally synthesized decision *)

(** Within 8 m of a positive distance the quotient saturates: the code's
    [min(0.8, 15.0 / distance)] and the [min(0.8, 8 / distance)] of the
    specification are both 0.8. *)
Lemma local_deceleration_saturates (distance : float) :
  (0 <? distance) = true -> (distance <? 8.0) = true ->
  py_min 0.8 (15.0 / distance) = 0.8 /\ py_min 0.8 (8 / distance) = 0.8.
Proof.
  intros H0 H8. unfold py_min.
  rewrite (Binary64.div_not_below_08 15.0 distance 8444249301319680 eq_refl H0 H8).
  rewrite (Binary64.div_not_below_08 8 distance 4503599627370496 eq_refl H0 H8).
  now split.
Qed.

(** For a positive distance the local decision is as specified. *)
Lemma local_sim_data_positive_distance (distance relative_velocity : float) :
  (0 <? distance) = true ->
  (distance <? 15.0) = true ->
  (0 <? relative_velocity) = true ->
  exists sim_data,
    local_sim_data distance relative_velocity = Ret sim_data
    /\ AEB_Status sim_data = true
    /\ ((distance <? 8.0) = true ->
        Emergency_Brake sim_data = true
        /\ Deceleration sim_data = py_min 0.8 (8 / distance)
        /\ Deceleration sim_data = 0.8).
Proof.
  intros H0 H15 Hv. unfold local_sim_data, py_truediv.
  rewrite H15, Hv, (ltb_zero_not_eqb _ H0). simpl.
  destruct (distance <? 8.0) eqn:H8.
  - eexists. split; [reflexivity|]. split; [reflexivity|]. intros _. simpl.
    destruct (local_deceleration_saturates distance H0 H8) as [A B].
    rewrite A, B. now repeat split.
  - eexists. split; [reflexivity|]. split; [reflexivity | discriminate].
Qed.

(** One iteration without a live connection. *)
Lemma tick_degraded st w s :
  connected st = None -> quit_event w = false ->
  match local_sim_data (w_distance w) (w_ego_speed w - w_cyclist_speed w) with
  | Ret sim_data =>
      exists st' hud s',
        tick st w s = (Ret (Continue st' hud), s')
        /\ hud_sim_data hud = sim_data
        /\ hud_ctrl hud
           = control_ego (sim_time st + 0.05) sim_data (collision st)
  | Raise e => tick st w s = (Raise e, s)
  end.
Proof.
  intros Hc Hq. unfold tick. rewrite Hq, Hc.
  destruct (calculate_ttc_total (w_distance w) (w_ego_speed w - w_cyclist_speed w))
    as [ttc Httc].
  rewrite Httc. unfold bind at 1. unfold lift at 1.
  destruct (local_sim_data _ _) as [sim_data | e].
  - unfold bind at 1. unfold bind at 2. unfold lift, ret at 1.
    destruct ((w_distance w <? 2.5) && negb (collision st));
      unfold bind, print, ret; simpl; eexists _, _, _; repeat split.
  - reflexivity.
Qed.

(** C1 fails on the code at distance 0.  With the link degraded, a
    reading of distance 0.0 with a positive closing speed makes
    [15.0 / distance] raise ZeroDivisionError: no decision is
    synthesized, the exception leaves the loop and the run ends, where
    C1 promises a decision with [AEB_Status] and [Emergency_Brake] set
    and deceleration 0.8.  At every positive distance, and so at the
    scenario point (6 m, 2 m/s, simulated time 3 s), the code does what
    C1 says. *)
Theorem local_decision_divides_by_distance :
  let st := {| tcp_active := false; conn := None;
               sim_time := 2.95; collision := false |} in
  let w d := {| quit_event := false; w_distance := d;
                w_ego_speed := 2; w_cyclist_speed := 0 |} in
  let braking := {| egoCarStop := false; FCW_Activate := false;
                    Deceleration := 0.8; AEB_Status := true;
                    Emergency_Brake := true |} in
  (* the failing reading *)
  ((0 <? 15.0) = true /\ (0 <? 8.0) = true /\ (0 <? 2 - 0) = true)
  /\ local_sim_data 0 2 = Raise ZeroDivisionError
  /\ tick st (w 0) quiet = (Raise ZeroDivisionError, quiet)
  /\ main_loop st [w 0; w 6] quiet = []
  (* the scenario point *)
  /\ local_sim_data 6 2 = Ret braking
  /\ (exists st' hud,
        tick st (w 6) quiet = (Ret (Continue st' hud), quiet)
        /\ hud_sim_data hud = braking
        /\ hud_ctrl hud = {| throttle := 0; steer := 0; brake := 1 |})
  (* every positive distance *)
  /\ (forall distance relative_velocity,
         (0 <? distance) = true ->
         (distance <? 15.0) = true ->
         (0 <? relative_velocity) = true ->
         exists sim_data,
           local_sim_data distance relative_velocity = Ret sim_data
           /\ AEB_Status sim_data = true
           /\ ((distance <? 8.0) = true ->
               Emergency_Brake sim_data = true
               /\ Deceleration sim_data = py_min 0.8 (8 / distance))).
Proof.
  intros st w braking.
  repeat lazymatch goal with |- _ /\ _ => split end;
    try (vm_compute; reflexivity).
  - vm_compute. eexists _, _. repeat split.
  - intros distance relative_velocity H0 H15 Hv.
    destruct (local_sim_data_positive_distance _ _ H0 H15 Hv)
      as (sim_data & E & A & B).
    exists sim_data. split; [exact E|]. split; [exact A|].
    intros H8. destruct (B H8) as (B1 & B2 & _). now split.
Qed.

(** * Further properties of the program *)

(** ** The loop *)

(** What every completed iteration does to the state and shows on the
    HUD. *)
Lemma tick_step st w s st' hud s' :
  tick st w s = (Ret (Continue st' hud), s') ->
  sim_time st' = sim_time st + 0.05
  /\ conn st' = conn st
  /\ hud_time hud = sim_time st'
  /\ hud_ctrl hud = control_ego (sim_time st') (hud_sim_data hud) (collision st)
  /\ hud_cyclist_ctrl hud = control_cyclist (sim_time st').
Proof.
  unfold tick. destruct (quit_event w); [discriminate|].
  intros H.
  apply bind_Ret_inv in H. destruct H as (ttc & s1 & _ & H).
  apply bind_Ret_inv in H. destruct H as ([act sim_data] & s2 & _ & H).
  apply bind_Ret_inv in H. destruct H as (c' & s3 & _ & H).
  unfold ret in H. inversion H; subst; clear H. simpl. now repeat split.
Qed.

Lemma control_ego_warm_up t sim_data c :
  (2.0 <? t) = false -> control_ego t sim_data c = full_brake.
Proof.
  intros H. unfold control_ego. rewrite H.
  now destruct (Emergency_Brake sim_data || egoCarStop sim_data || c).
Qed.

Lemma control_ego_collision t sim_data :
  control_ego t sim_data true = full_brake.
Proof. unfold control_ego. now rewrite orb_true_r. Qed.

Lemma main_loop_sim_time : forall ws st s i st_i hud_i,
  nth_error (main_loop st ws s) i = Some (st_i, hud_i) ->
  sim_time st_i = Nat.iter (S i) (fun t => t + 0.05) (sim_time st)
  /\ hud_time hud_i = sim_time st_i
  /\ hud_cyclist_ctrl hud_i = control_cyclist (sim_time st_i)
  /\ ((2.0 <? sim_time st_i) = false -> hud_ctrl hud_i = full_brake).
Proof.
  induction ws as [ | w ws IH]; intros st s i st_i hud_i H.
  - destruct i; discriminate.
  - simpl in H.
    destruct (tick st w s) as [[[ | st' hud] | e] s'] eqn:T;
      try (destruct i; discriminate).
    destruct (tick_step _ _ _ _ _ _ T) as (T1 & _ & T3 & T4 & T5).
    destruct i as [ | i]; simpl in H.
    + inversion H; subst. simpl. repeat split; try assumption.
      intros W. rewrite T4. now apply control_ego_warm_up.
    + destruct (IH _ _ _ _ _ H) as (I1 & I2 & I3 & I4).
      repeat split; try assumption.
      rewrite I1, T1. symmetry. rewrite Nat.iter_succ_r. reflexivity.
Qed.

(** X1. The simulated clock depends on nothing but the number of
    iterations, and the warm-up lasts 39 of them: during the first 39
    iterations of a run both vehicles are held at full brake whatever is
    read or received, and at the 40th the accumulated time
    2.0000000000000009 exceeds 2.0, so the cyclist starts (throttle
    0.4). *)
Theorem warm_up_lasts_39_iterations a ws s i st_i hud_i :
  nth_error (main_loop (initial_state a) ws s) i = Some (st_i, hud_i) ->
  sim_time st_i = time_after (S i)
  /\ hud_time hud_i = time_after (S i)
  /\ ((i < 39)%nat ->
      hud_ctrl hud_i = full_brake /\ hud_cyclist_ctrl hud_i = full_brake)
  /\ (i = 39%nat ->
      (2.0 <? sim_time st_i) = true
      /\ hud_cyclist_ctrl hud_i
         = {| throttle := 0.4; steer := 0.0; brake := 0.0 |}).
Proof.
  intros H. destruct (main_loop_sim_time _ _ _ _ _ _ H) as (I1 & I2 & I3 & I4).
  assert (E : sim_time st_i = time_after (S i)).
  { rewrite I1. now destruct a. }
  split; [exact E|]. split; [now rewrite I2|]. split.
  - intros L.
    assert (W : (2.0 <? sim_time st_i) = false).
    { rewrite E. clear - L.
      do 39 (destruct i as [ | i]; [vm_compute; reflexivity|]). lia. }
    split; [now apply I4|]. rewrite I3. unfold control_cyclist. now rewrite W.
  - intros ->. rewrite I3, E. split; vm_compute; reflexivity.
Qed.

Lemma warm_up_lasts_39_iterations_witness :
  let w := {| quit_event := false; w_distance := 5;
              w_ego_speed := 3; w_cyclist_speed := 0 |} in
  option_map (fun p => hud_ctrl (snd p))
    (nth_error (main_loop (initial_state (AcceptFails OSError))
                          (repeat w 45) quiet) 38)
  = Some full_brake.
Proof.
  intros w.
  destruct (nth_error (main_loop (initial_state (AcceptFails OSError))
                                 (repeat w 45) quiet) 38)
    as [[st_i hud_i] | ] eqn:E; [|vm_compute in E; discriminate E].
  simpl. f_equal.
  destruct (warm_up_lasts_39_iterations (AcceptFails OSError) (repeat w 45)
              quiet 38 st_i hud_i E) as (_ & _ & W & _).
  apply W. lia.
Defined.

(** X2. A pending quit event stops the loop before anything else is
    done: the iteration returns without advancing the clock, using the
    socket or printing, and no later reading is processed. *)
Theorem quit_stops_the_loop st ws s k w :
  nth_error ws k = Some w ->
  quit_event w = true ->
  tick st w s = (Ret Returned, s)
  /\ (length (main_loop st ws s) <= k)%nat.
Proof.
  intros Hk Hq. split.
  - unfold tick. now rewrite Hq.
  - revert st s k Hk. induction ws as [ | w0 ws IH]; intros st s k Hk.
    + simpl. lia.
    + destruct k as [ | k]; simpl in Hk.
      * inversion Hk; subst w0. simpl. unfold tick. rewrite Hq. simpl. lia.
      * simpl. destruct (tick st w0 s) as [[[ | st' hud] | e] s'];
          simpl; try lia.
        specialize (IH st' s' k Hk). lia.
Qed.

Lemma quit_stops_the_loop_witness :
  let go := {| quit_event := false; w_distance := 40;
               w_ego_speed := 0; w_cyclist_speed := 0 |} in
  let quit := {| quit_event := true; w_distance := 40;
                 w_ego_speed := 0; w_cyclist_speed := 0 |} in
  (length (main_loop (initial_state AcceptOk) [go; go; quit; go; go] quiet)
   <= 2)%nat.
Proof.
  intros go quit.
  exact (proj2 (quit_stops_the_loop (initial_state AcceptOk)
                  [go; go; quit; go; go] quiet 2 quit eq_refl eq_refl)).
Defined.

Lemma main_loop_after_collision : forall ws st s j st_j hud_j,
  collision st = true ->
  nth_error (main_loop st ws s) j = Some (st_j, hud_j) ->
  hud_ctrl hud_j = full_brake.
Proof.
  induction ws as [ | w ws IH]; intros st s j st_j hud_j Hc Hj.
  - destruct j; discriminate.
  - simpl in Hj.
    destruct (tick st w s) as [[[ | st' hud] | e] s'] eqn:T;
      try (destruct j; discriminate).
    destruct (tick_step _ _ _ _ _ _ T) as (_ & _ & _ & T4 & _).
    destruct (tick_collision _ _ _ _ _ _ T) as [T1 _].
    rewrite Hc in T1. simpl in T1.
    destruct j as [ | j]; simpl in Hj.
    + inversion Hj; subst. rewrite T4, Hc. apply control_ego_collision.
    + eapply IH; eassumption.
Qed.

(** X3. Once an iteration has read a distance below 2.5 m, every later
    iteration commands full brake (throttle 0, brake 1), whatever the
    controller sends and whatever the link state.  (The iteration that
    reads the distance still computes its command with the flag as it
    was: in the run below it cruises.) *)
Theorem collision_brakes_from_next_iteration st ws s k j w_k st_j hud_j :
  nth_error ws k = Some w_k ->
  (w_distance w_k <? 2.5) = true ->
  (k < j)%nat ->
  nth_error (main_loop st ws s) j = Some (st_j, hud_j) ->
  hud_ctrl hud_j = full_brake.
Proof.
  revert st s k j. induction ws as [ | w ws IH]; intros st s k j Hk Hd Hlt Hj.
  - destruct k; discriminate.
  - simpl in Hj.
    destruct (tick st w s) as [[[ | st' hud] | e] s'] eqn:T;
      try (destruct j; discriminate).
    destruct j as [ | j]; [lia|]. simpl in Hj.
    destruct k as [ | k]; simpl in Hk.
    + inversion Hk; subst w_k.
      destruct (tick_collision _ _ _ _ _ _ T) as [T1 _].
      rewrite Hd, orb_true_r in T1.
      eapply main_loop_after_collision; eassumption.
    + eapply IH; try eassumption. lia.
Qed.

Lemma collision_brakes_from_next_iteration_witness :
  let w d := {| quit_event := false; w_distance := d;
                w_ego_speed := 5; w_cyclist_speed := 6 |} in
  let st := {| tcp_active := true; conn := Some {| gettimeout := Some 0.05 |};
               sim_time := 4.0; collision := false |} in
  option_map (fun p => hud_ctrl (snd p))
    (nth_error (main_loop st [w 2.4; w 30] quiet) 1) = Some full_brake
  /\ option_map (fun p => hud_ctrl (snd p))
       (nth_error (main_loop st [w 2.4; w 30] quiet) 0) = Some cruise.
Proof.
  intros w st. split; [|reflexivity].
  destruct (nth_error (main_loop st [w 2.4; w 30] quiet) 1)
    as [[st_j hud_j] | ] eqn:E; [|discriminate E].
  simpl. f_equal.
  refine (collision_brakes_from_next_iteration st [w 2.4; w 30] quiet 0 1
            (w 2.4) st_j hud_j _ _ _ E).
  - reflexivity.
  - reflexivity.
  - lia.
Defined.

(** X4. With a live connection the local kinematics play no part: when
    the controller is silent (the receive times out), after warm-up and
    before any collision the ego vehicle is driven at throttle 0.6 with
    no brake, whatever the distance and the closing speed. *)
Theorem silent_controller_means_no_braking st w s c :
  connected st = Some c ->
  quit_event w = false ->
  hd (RecvFails socket_timeout) (recv_script s) = RecvFails socket_timeout ->
  collision st = false ->
  (2.0 <? sim_time st + 0.05) = true ->
  exists st' hud s',
    tick st w s = (Ret (Continue st' hud), s')
    /\ hud_ctrl hud = cruise
    /\ AEB_Status (hud_sim_data hud) = false.
Proof.
  intros Hc Hq Ht Hcol Hw.
  destruct (tick_connected st w s c Hc Hq)
    as (ttc & s1 & sim_data & s2 & _ & Hs & Hr & st' & hud & s' & T & H).
  destruct H as (_ & _ & _ & _ & Hd & Hctrl & _).
  rewrite <- (send_data_recv_script _ _ _ _ Hs) in Ht.
  destruct (receive_data_timeout c s1 Ht) as [s2' [R _]].
  rewrite R in Hr.
  assert (Hs' : sim_data = default_sim_data) by congruence.
  exists st', hud, s'. split; [exact T|].
  rewrite Hd, Hctrl, Hs', Hcol. split; [|reflexivity].
  unfold control_ego. rewrite Hw. reflexivity.
Qed.

Lemma silent_controller_means_no_braking_witness :
  let w := {| quit_event := false; w_distance := 3;
              w_ego_speed := 10; w_cyclist_speed := 1 |} in
  let st := {| tcp_active := true; conn := Some {| gettimeout := Some 0.05 |};
               sim_time := 4.0; collision := false |} in
  exists st' hud s',
    tick st w quiet = (Ret (Continue st' hud), s') /\ hud_ctrl hud = cruise.
Proof.
  intros w st.
  destruct (silent_controller_means_no_braking st w quiet
              {| gettimeout := Some 0.05 |} eq_refl eq_refl eq_refl eq_refl
              eq_refl) as (st' & hud & s' & T & C & _).
  now exists st', hud, s'.
Defined.

(** X5. Without a live connection an iteration never uses the socket:
    nothing is sent, no receive is attempted, and the state it leaves
    is again without connection. *)
Theorem degraded_iteration_leaves_socket_alone st w s r s' :
  connected st = None ->
  tick st w s = (r, s') ->
  sendall_script s' = sendall_script s
  /\ recv_script s' = recv_script s
  /\ wire_out s' = wire_out s
  /\ (forall st' hud, r = Ret (Continue st' hud) ->
      connected st' = None /\ hud_tcp_active hud = tcp_active st).
Proof.
  intros Hc T. unfold tick in T. rewrite Hc in T.
  destruct (quit_event w).
  { unfold ret in T. inversion T; subst. repeat split; discriminate. }
  destruct (calculate_ttc_total (w_distance w) (w_ego_speed w - w_cyclist_speed w))
    as [ttc Httc].
  rewrite Httc in T. unfold bind at 1 in T. unfold lift at 1 in T.
  unfold bind at 1 in T. unfold bind at 1 in T. unfold lift at 1 in T.
  destruct (local_sim_data _ _) as [sim_data | e].
  - unfold ret at 1 in T.
    destruct ((w_distance w <? 2.5) && negb (collision st));
      unfold bind, print, ret in T; simpl in T; inversion T; subst; simpl;
      (split; [reflexivity | split; [reflexivity | split; [reflexivity|]]];
       intros st1 hud1 E; inversion E; subst; simpl;
       split; [exact Hc | reflexivity]).
  - inversion T; subst. repeat split; discriminate.
Qed.

Lemma degraded_iteration_leaves_socket_alone_witness :
  let w := {| quit_event := false; w_distance := 5;
              w_ego_speed := 3; w_cyclist_speed := 0 |} in
  let s := {| sendall_script := [SendFails OSError 2];
              recv_script := [RecvBytes [x01]];
              wire_out := [x07]; stdout := [] |} in
  wire_out (snd (tick (initial_state (AcceptFails OSError)) w s)) = [x07].
Proof.
  intros w s.
  exact (proj1 (proj2 (proj2
           (degraded_iteration_leaves_socket_alone
              (initial_state (AcceptFails OSError)) w s _ _ eq_refl
              (surjective_pairing _))))).
Defined.

(** ** Sending and receiving *)

(** X6. [send_data] never raises.  When the three [sendall] calls
    succeed, exactly the 24 bytes of the three values are appended to
    the wire, in the order distance, cyclist speed, ego speed.  When the
    first call fails, only the bytes that call managed to write go out,
    the two other values are not attempted, and the error is printed:
    the peer is left with a truncated frame. *)
Theorem send_data_outcomes conn data s :
  (exists s', send_data conn data s = (Ret tt, s')
              /\ recv_script s' = recv_script s)
  /\ (Forall (fun r => r = SendOk) (firstn 3 (sendall_script s)) ->
      exists s', send_data conn data s = (Ret tt, s')
        /\ wire_out s' = wire_out s ++ pack_d (MIO_Distance data)
                         ++ pack_d (MIO_Velocity data)
                         ++ pack_d (Ego_Velocity data)
        /\ length (wire_out s') = (length (wire_out s) + 24)%nat
        /\ stdout s' = stdout s ++ [LogSend data])
  /\ (forall e written rest,
        sendall_script s = SendFails e written :: rest ->
        exists s', send_data conn data s = (Ret tt, s')
          /\ wire_out s' = wire_out s
                           ++ firstn written (pack_d (MIO_Distance data))
          /\ sendall_script s' = rest
          /\ stdout s' = stdout s ++ [LogErrSend e]).
Proof.
  split; [exact (send_data_returns conn data s)|]. split.
  - intros H.
    assert (E : exists s', send_data conn data s = (Ret tt, s')
              /\ wire_out s' = (((wire_out s ++ pack_d (MIO_Distance data))
                                ++ pack_d (MIO_Velocity data))
                               ++ pack_d (Ego_Velocity data))
              /\ stdout s' = stdout s ++ [LogSend data]).
    { unfold send_data, try_except, bind, sendall, print.
      destruct (sendall_script s) as [ | r1 [ | r2 [ | r3 r]]];
        unfold firstn in H;
        repeat match goal with
               | F : Forall _ (_ :: _) |- _ => inversion F; subst; clear F
               end;
        simpl; eexists; repeat split. }
    destruct E as (s' & E & W & L).
    exists s'. split; [exact E|]. rewrite W, <- !app_assoc.
    split; [reflexivity|]. split; [|exact L].
    rewrite !length_app. simpl. lia.
  - intros e written rest H.
    unfold send_data, try_except, bind, sendall, print. rewrite H. simpl.
    eexists. repeat split.
Qed.

Lemma send_data_outcomes_witness :
  let data := {| MIO_Distance := 12.5; MIO_Velocity := 1; Ego_Velocity := 8 |} in
  let s := {| sendall_script := [SendFails OSError 3; SendOk];
              recv_script := []; wire_out := []; stdout := [] |} in
  exists s', send_data {| gettimeout := Some 0.05 |} data s = (Ret tt, s')
             /\ wire_out s' = [x00; x00; x00]
             /\ sendall_script s' = [SendOk].
Proof.
  intros data s.
  destruct (proj2 (proj2 (send_data_outcomes {| gettimeout := Some 0.05 |}
                            data s)) OSError 3%nat [SendOk] eq_refl)
    as (s' & E & W & R & _).
  exists s'. split; [exact E|]. split; [exact W | exact R].
Defined.

Lemma recv_doubles_packets_state conn (xs : list float) : forall data s,
  recv_doubles conn (length xs) data
    (with_recv (packets (length xs) (concat (map pack_d xs))) s)
  = (Ret (data ++ xs), with_recv [] s).
Proof.
  induction xs as [ | x xs IH]; intros data s.
  - simpl. now rewrite app_nil_r.
  - cbn [length recv_doubles map concat packets].
    change (firstn 8 (pack_d x ++ concat (map pack_d xs))) with (pack_d x).
    change (skipn 8 (pack_d x ++ concat (map pack_d xs)))
      with (concat (map pack_d xs)).
    unfold bind at 1. unfold recv, with_recv at 1.
    cbn [recv_script tl sendall_script wire_out stdout].
    change (firstn 8 (pack_d x)) with (pack_d x).
    change (Nat.ltb (length (pack_d x)) 8) with false. cbv iota.
    unfold bind, lift. rewrite unpack_d_pack_d.
    specialize (IH (data ++ [x]) s). unfold with_recv in IH.
    cbn [recv_script tl sendall_script wire_out stdout] in IH.
    rewrite <- app_assoc in IH. exact IH.
Qed.

Lemma bool_round_float_of_bool (b : bool) (s : io) :
  bool_round (float_of_bool b) s = (Ret b, s).
Proof. now destruct b. Qed.

(** X7. A command frame sent as five doubles, the flags as 0.0 or 1.0,
    is decoded by [receive_data] to exactly that frame, which is printed
    once.  The deceleration is handed on as received, with no range
    check: any double, negative values and NaN included. *)
Theorem command_frame_round_trip (conn : socket) (f : command_frame) :
  receive_data conn (with_recv (packets 5 (frame_bytes f)) quiet)
  = (Ret f, {| sendall_script := []; recv_script := []; wire_out := [];
               stdout := [LogRecv f] |}).
Proof.
  unfold receive_data, try_except.
  pose proof (recv_doubles_packets_state conn
                [float_of_bool (egoCarStop f); float_of_bool (FCW_Activate f);
                 Deceleration f; float_of_bool (AEB_Status f);
                 float_of_bool (Emergency_Brake f)] [] quiet) as R.
  cbn [length map concat app] in R. rewrite app_nil_r in R.
  unfold frame_bytes. rewrite (bind_Ret _ _ _ _ _ R).
  cbn [nth].
  rewrite (bind_Ret _ _ _ _ _ (bool_round_float_of_bool _ _)).
  rewrite (bind_Ret _ _ _ _ _ (bool_round_float_of_bool _ _)).
  rewrite (bind_Ret _ _ _ _ _ (bool_round_float_of_bool _ _)).
  rewrite (bind_Ret _ _ _ _ _ (bool_round_float_of_bool _ _)).
  destruct f. reflexivity.
Qed.

(** ** Decoding a flag: [bool(round(x))] *)

Module FlagDecoding.

Local Open Scope Z_scope.

Lemma round_half_even_zero (m k : Z) :
  0 < m -> 0 < k -> (round_half_even m k = 0 <-> 2 * m <= 2 ^ k).
Proof.
  intros Hm Hk. unfold round_half_even. cbv zeta.
  assert (P := Binary64.pow2_pos k ltac:(lia)).
  assert (Q := Z.div_mod m (2 ^ k) ltac:(lia)).
  assert (B := Z.mod_pos_bound m (2 ^ k) P).
  assert (N : 0 <= m / 2 ^ k) by (apply Z.div_pos; lia).
  revert Q B N. generalize (m mod 2 ^ k). generalize (m / 2 ^ k).
  revert P. generalize (2 ^ k). clear Hk. intros p P q r Q B N.
  assert (D : q = 0 \/ 1 <= q) by lia.
  destruct (Z.compare_spec (2 * r) p) as [E | E | E].
  - destruct D as [D | D].
    + subst q. simpl Z.even. cbv iota. split; intros _; lia.
    + destruct (Z.even q); split; intros H; nia.
  - destruct D as [D | D]; [subst q; split; intros _; lia|].
    split; intros H; nia.
  - split; intros H; nia.
Qed.

Lemma py_bool_rounded (s : bool) (m : positive) (e : Z) :
  py_bool (cond_Zopp s (if 0 <=? e then Zpos m * 2 ^ e
                        else round_half_even (Zpos m) (- e)))
  = above_half m e.
Proof.
  unfold py_bool, above_half.
  destruct (Z.leb_spec 0 e) as [L | L].
  - assert (P : 0 < Zpos m * 2 ^ e)
      by (apply Z.mul_pos_pos; [lia | apply Binary64.pow2_pos, L]).
    revert P. generalize (Zpos m * 2 ^ e). intros v P.
    unfold cond_Zopp. destruct s;
      match goal with |- negb (?a =? 0) = _ =>
        destruct (Z.eqb_spec a 0) as [E | E]; [lia | reflexivity] end.
  - pose proof (round_half_even_zero (Zpos m) (- e) ltac:(lia) ltac:(lia)) as R.
    set (r := round_half_even (Zpos m) (- e)) in *.
    assert (C : (cond_Zopp s r =? 0) = (r =? 0)).
    { unfold cond_Zopp. destruct s; [|reflexivity].
      destruct (Z.eqb_spec (- r) 0), (Z.eqb_spec r 0); lia. }
    rewrite C.
    destruct (Z.eqb_spec r 0) as [E | E], (Z.leb_spec (2 * Zpos m) (2 ^ (- e)));
      try reflexivity; exfalso; [apply R in E; lia | apply E, R; lia].
Qed.

Lemma compare_with_two_52 (m : positive) :
  (4503599627370496 ?= m)%positive = (2 ^ 53 ?= 2 * Zpos m).
Proof.
  rewrite Pos2Z.inj_compare.
  change (2 ^ 53) with (2 * 4503599627370496).
  destruct (Z.compare_spec 4503599627370496 (Zpos m)) as [E | E | E];
    symmetry; [apply Z.compare_eq_iff | apply Z.compare_lt_iff
               | apply Z.compare_gt_iff]; lia.
Qed.

Lemma above_half_cases (m : positive) (e : Z) :
  canonical_mantissa prec emax m e = true ->
  above_half m e
  = match -53 ?= e with
    | Lt => true
    | Gt => false
    | Eq => match (4503599627370496 ?= m)%positive with
            | Lt => true
            | _ => false
            end
    end.
Proof.
  intros C. apply Binary64.canonical_bounds in C.
  destruct C as (E1 & M1 & M2). unfold above_half.
  destruct (Z.compare_spec (-53) e) as [E | E | E].
  - subst e. change (0 <=? -53) with false. cbv iota.
    rewrite compare_with_two_52.
    change (2 ^ (- -53)) with (2 ^ 53).
    destruct (Z.compare_spec (2 ^ 53) (2 * Zpos m)) as [F | F | F];
      destruct (Z.leb_spec (2 * Zpos m) (2 ^ 53)); try reflexivity; lia.
  - destruct (Z.leb_spec 0 e) as [L | L]; [reflexivity|].
    assert (T : 2 ^ (- e) <= 2 ^ 52) by (apply Z.pow_le_mono_r; lia).
    destruct (Z.leb_spec (2 * Zpos m) (2 ^ (- e))); [lia | reflexivity].
  - destruct (Z.leb_spec 0 e) as [L | L]; [lia|].
    assert (T : 2 ^ 54 <= 2 ^ (- e)) by (apply Z.pow_le_mono_r; lia).
    change (2 ^ 54) with (2 * 2 ^ 53) in T.
    destruct (Z.leb_spec (2 * Zpos m) (2 ^ (- e))); [reflexivity | lia].
Qed.

Lemma above_half_positive (m : positive) (e : Z) :
  canonical_mantissa prec emax m e = true ->
  SFltb (S754_finite false 4503599627370496 (-53)) (S754_finite false m e)
  = above_half m e.
Proof.
  intros C. rewrite (above_half_cases m e C).
  unfold SFltb, SFcompare. rewrite Pos.compare_cont_spec. simpl Pos.switch_Eq.
  destruct (-53 ?= e); try reflexivity.
  now destruct (4503599627370496 ?= m)%positive.
Qed.

Lemma above_half_negative (m : positive) (e : Z) :
  canonical_mantissa prec emax m e = true ->
  SFltb (S754_finite true m e) (S754_finite true 4503599627370496 (-53))
  = above_half m e.
Proof.
  intros C. rewrite (above_half_cases m e C).
  unfold SFltb, SFcompare. rewrite Pos.compare_cont_spec. simpl Pos.switch_Eq.
  rewrite (Z.compare_antisym (-53) e), (Pos.compare_antisym 4503599627370496 m).
  unfold Pos.switch_Eq.
  destruct (-53 ?= e); try reflexivity.
  now destruct (4503599627370496 ?= m)%positive.
Qed.

End FlagDecoding.

(** X8. How [receive_data] reads a flag: [bool(round(x))] is [True]
    exactly when the received double is above 0.5 or below -0.5, so 0.5
    itself and -0.5 read as [False] (ties go to the even integer 0) and
    every larger magnitude, negative values included, reads as [True].
    NaN raises ValueError and an infinity raises OverflowError. *)
Theorem flag_is_magnitude_above_one_half (x : float) (s : io) :
  bool_round x s
  = match Prim2SF x with
    | S754_nan => (Raise ValueError, s)
    | S754_infinity _ => (Raise OverflowError, s)
    | _ => (Ret ((0.5 <? x) || (x <? -0.5)), s)
    end.
Proof.
  unfold bool_round, bind, lift, ret, py_round.
  rewrite !FloatAxioms.ltb_spec.
  change (Prim2SF 0.5) with (S754_finite false 4503599627370496 (-53)).
  change (Prim2SF (-0.5)) with (S754_finite true 4503599627370496 (-53)).
  pose proof (Prim2SF_valid x) as V.
  destruct (Prim2SF x) as [sx | sx | | sx m e]; try reflexivity.
  apply Binary64.valid_canonical in V. destruct V as [C _].
  rewrite FlagDecoding.py_bool_rounded.
  destruct sx.
  - rewrite (FlagDecoding.above_half_negative m e C). reflexivity.
  - rewrite (FlagDecoding.above_half_positive m e C).
    now rewrite orb_false_r.
Qed.

(** ** Every output of [control_ego] *)

Lemma SFcompare_antisym (x y : spec_float) :
  SFcompare y x = option_map CompOpp (SFcompare x y).
Proof.
  destruct x as [sx | sx | | sx mx ex], y as [sy | sy | | sy my ey];
    try reflexivity; try (now destruct sx); try (now destruct sy);
    try (now destruct sx, sy).
  unfold SFcompare. destruct sx, sy; try reflexivity; simpl option_map; f_equal;
    rewrite (Z.compare_antisym ey ex), !Pos.compare_cont_spec,
      (Pos.compare_antisym my mx);
    destruct (ey ?= ex)%Z; try reflexivity;
    now destruct (my ?= mx)%positive.
Qed.

Lemma ltb_asym (x y : float) : (x <? y) = true -> (y <? x) = false.
Proof.
  rewrite !FloatAxioms.ltb_spec. unfold SFltb.
  rewrite (SFcompare_antisym (Prim2SF x) (Prim2SF y)).
  now destruct (SFcompare (Prim2SF x) (Prim2SF y)) as [[ | | ] | ].
Qed.

Lemma py_min_idempotent (a x : float) :
  (a <? a) = false -> py_min a (py_min a x) = py_min a x.
Proof.
  intros I. unfold py_min. destruct (x <? a) eqn:L.
  - now rewrite L.
  - now rewrite I.
Qed.

Lemma py_min_not_above (a x : float) :
  (a <? a) = false -> (a <? py_min a x) = false.
Proof.
  intros I. unfold py_min. destruct (x <? a) eqn:L.
  - now apply ltb_asym.
  - exact I.
Qed.

Lemma py_max_not_below (a x : float) :
  (a <? a) = false -> (py_max a x <? a) = false.
Proof.
  intros I. unfold py_max. destruct (a <? x) eqn:L.
  - now apply ltb_asym.
  - exact I.
Qed.

(** X9. Whatever it is given, a not-a-number or negative deceleration
    included, [control_ego] either commands the full brake or a throttle
    that is not below 0.6 together with a brake that is not above 0.8;
    the brake is then [min(0.8, Deceleration)], the second [min] of the
    source changing nothing, and the steering is always 0. *)
Theorem control_ego_full_brake_or_bounded (sim_time : float)
    (sim_data : command_frame) (collision : bool) :
  let c := control_ego sim_time sim_data collision in
  steer c = 0
  /\ (c = full_brake
      \/ (brake c = py_min 0.8 (Deceleration sim_data)
          /\ (0.8 <? brake c) = false
          /\ (throttle c <? 0.6) = false)).
Proof.
  unfold control_ego.
  destruct (Emergency_Brake sim_data || egoCarStop sim_data || collision);
    [split; [reflexivity | left; reflexivity]|].
  destruct (2.0 <? sim_time);
    [|split; [reflexivity | left; reflexivity]].
  cbv zeta. simpl steer. simpl brake. simpl throttle.
  split; [reflexivity | right].
  rewrite (py_min_idempotent 0.8 _ eq_refl).
  split; [reflexivity|]. split.
  - apply py_min_not_above. reflexivity.
  - apply py_max_not_below. reflexivity.
Qed.

(** ** The degraded decision at the pedals *)

Lemma local_sim_data_cases (distance relative_velocity : float)
    (sim_data : command_frame) :
  local_sim_data distance relative_velocity = Ret sim_data ->
  egoCarStop sim_data = false
  /\ Emergency_Brake sim_data
     = (distance <? 15.0) && (0 <? relative_velocity) && (distance <? 8.0)
  /\ (Emergency_Brake sim_data = false -> Deceleration sim_data = 0).
Proof.
  unfold local_sim_data.
  destruct ((distance <? 15.0) && (0 <? relative_velocity)).
  - destruct (distance <? 8.0).
    + destruct (py_truediv 15.0 distance); [|discriminate].
      intros [= <-]. simpl. repeat split. discriminate.
    + intros [= <-]. now repeat split.
  - intros [= <-]. now repeat split.
Qed.

(** X10. Without a controller the ego vehicle never brakes
    progressively: for the decision that [main] synthesizes locally,
    [control_ego] gives the full brake during warm-up, after a collision,
    or when the cyclist is within 8 m and closing, and otherwise throttle
    0.6 with brake 0.  The deceleration computed for the emergency case
    never reaches the brake, since that case sets [Emergency_Brake]. *)
Theorem degraded_decision_is_all_or_nothing
    (distance relative_velocity sim_time : float) (collision : bool)
    (sim_data : command_frame) :
  local_sim_data distance relative_velocity = Ret sim_data ->
  control_ego sim_time sim_data collision
  = if (2.0 <? sim_time) && negb collision
       && negb ((distance <? 15.0) && (0 <? relative_velocity)
                && (distance <? 8.0))
    then cruise else full_brake.
Proof.
  intros H. destruct (local_sim_data_cases _ _ _ H) as (S & E & D).
  rewrite <- E. unfold control_ego. rewrite S.
  destruct (Emergency_Brake sim_data).
  - now rewrite andb_false_r.
  - rewrite (D eq_refl). destruct collision; [now rewrite andb_false_r|].
    destruct (2.0 <? sim_time); reflexivity.
Qed.

Lemma degraded_decision_is_all_or_nothing_witness :
  control_ego 3.0 {| egoCarStop := false; FCW_Activate := false;
                     Deceleration := 0.0; AEB_Status := true;
                     Emergency_Brake := false |} false = cruise
  /\ control_ego 3.0 {| egoCarStop := false; FCW_Activate := false;
                        Deceleration := 0.8; AEB_Status := true;
                        Emergency_Brake := true |} false = full_brake.
Proof.
  split.
  - exact (degraded_decision_is_all_or_nothing 12.0 1.5 3.0 false _ eq_refl).
  - exact (degraded_decision_is_all_or_nothing 5.0 1.5 3.0 false _ eq_refl).
Defined.

(** ** The time to collision is never negative *)


Lemma not_leb_zero_positive (x : float) :
  (x =? x) = true -> (x <=? 0) = false -> (0 <? x) = true.
Proof.
  float_spec. change (Prim2SF 0) with (S754_zero false).
  destruct (Prim2SF x) as [s | s | | s m e]; simpl; try discriminate;
    try reflexivity; destruct s; simpl; try discriminate; reflexivity.
Qed.

(** X11. [calculate_ttc] never raises: a zero relative velocity takes
    the first branch, so its division cannot fail.  For a distance that
    is finite and not negative and a relative velocity that is a number,
    the time to collision it returns is not negative (it may be
    +infinity). *)
Theorem calculate_ttc_total_and_not_negative (distance relative_velocity : float) :
  exists ttc,
    calculate_ttc distance relative_velocity = Ret ttc
    /\ ((0 <=? distance) = true -> (distance <? infinity) = true ->
        (relative_velocity =? relative_velocity) = true ->
        (0 <=? ttc) = true).
Proof.
  unfold calculate_ttc, py_truediv.
  destruct (relative_velocity <=? 0) eqn:L.
  - exists infinity. split; reflexivity.
  - rewrite (leb_false_not_eqb _ L).
    exists (distance / relative_velocity). split; [reflexivity|].
    intros Hd Fd Hn. pose proof (not_leb_zero_positive _ Hn L) as Hv.
    revert Hd Fd Hv.
    rewrite !FloatAxioms.leb_spec, !FloatAxioms.ltb_spec, FloatAxioms.div_spec.
    change (Prim2SF 0) with (S754_zero false).
    change (Prim2SF infinity) with (S754_infinity false).
    apply Sign.SF64div_nonneg.
Qed.

Lemma calculate_ttc_total_and_not_negative_witness :
  exists ttc, calculate_ttc 12.0 1.5 = Ret ttc /\ (0 <=? ttc) = true.
Proof.
  destruct (calculate_ttc_total_and_not_negative 12.0 1.5) as (ttc & E & H).
  exists ttc. split; [exact E | exact (H eq_refl eq_refl eq_refl)].
Defined.

(** ** The plotter's sliding window *)

Section PlotterWindow.

Local Open Scope nat_scope.

Lemma tl_skipn {A} (k : nat) : forall l : list A, tl (skipn k l) = skipn (S k) l.
Proof.
  induction k as [ | k IH]; intros [ | a l]; try reflexivity.
  exact (IH l).
Qed.

(** Appending to a deque that holds the last [n] items of [l] gives the
    last [n] items of [l ++ [x]]. *)
Lemma deque_append_window (n : nat) (l : list float) (x : float) :
  deque_append n (skipn (length l - n) l) x
  = skipn (length (l ++ [x]) - n) (l ++ [x]).
Proof.
  unfold deque_append. cbv zeta.
  assert (E : skipn (length l - n) l ++ [x] = skipn (length l - n) (l ++ [x])).
  { rewrite skipn_app. replace (length l - n - length l) with 0 by lia.
    reflexivity. }
  rewrite E, length_skipn, !length_app. simpl length.
  destruct (Nat.ltb_spec n (length l + 1 - (length l - n))) as [L | L].
  - rewrite tl_skipn. f_equal. lia.
  - f_equal. lia.
Qed.

Lemma deque_append_length (n : nat) (d : list float) (x : float) :
  length d <= n -> length (deque_append n d x) = Nat.min (S (length d)) n.
Proof.
  intros H. unfold deque_append. cbv zeta.
  assert (T : forall l : list float, length (tl l) = length l - 1)
    by (intros [ | a l]; simpl; lia).
  assert (A : length (d ++ [x]) = length d + 1) by apply length_app.
  destruct (Nat.ltb_spec n (length (d ++ [x]))) as [L | L].
  - rewrite T, A. lia.
  - rewrite A. lia.
Qed.

Lemma Forall_tl {A} (P : A -> Prop) (l : list A) : Forall P l -> Forall P (tl l).
Proof. intros H. destruct H; [constructor | assumption]. Qed.

Lemma deque_append_Forall (P : float -> Prop) (n : nat) (d : list float)
    (x : float) :
  Forall P d -> P x -> Forall P (deque_append n d x).
Proof.
  intros Hd Hx. unfold deque_append. cbv zeta.
  assert (F : Forall P (d ++ [x])) by (apply Forall_app; split; auto).
  destruct (Nat.ltb n (length (d ++ [x]))); [now apply Forall_tl | exact F].
Qed.

Lemma capped_ttc_not_above_10 (ttc : float) : (10 <? py_min ttc 10)%float = false.
Proof. unfold py_min. destruct (10 <? ttc)%float eqn:E; [reflexivity | exact E]. Qed.

Lemma updates_app (p : RealTimePlotter) (xs ys : list sample) :
  updates p (xs ++ ys) = updates (updates p xs) ys.
Proof. unfold updates. apply fold_left_app. Qed.

Lemma updates_disabled (xs : list sample) : forall p : RealTimePlotter,
  plotting_enabled p = false -> updates p xs = p.
Proof.
  induction xs as [ | x xs IH]; intros p H; [reflexivity|].
  unfold updates. simpl fold_left. unfold update at 2. rewrite H. simpl.
  apply IH, H.
Qed.

(** The bookkeeping invariant of the plotter. *)
Lemma update_invariant (p : RealTimePlotter) (x : sample) :
  let ok q :=
    length (times q) <= max_points q
    /\ length (distances q) = length (times q)
    /\ length (ttc_values q) = length (times q)
    /\ length (ego_speeds q) = length (times q)
    /\ length (cyclist_speeds q) = length (times q)
    /\ Forall (fun v => (10 <? v)%float = false) (ttc_values q) in
  ok p -> ok (fst (update p x)) /\ max_points (fst (update p x)) = max_points p.
Proof.
  intros ok (B & D & T & E & C & F). unfold update.
  destruct (plotting_enabled p); simpl negb; cbv iota;
    [|split; [repeat split; assumption | reflexivity]].
  cbv zeta.
  assert (G : forall q,
            max_points q = max_points p ->
            times q = deque_append (max_points p) (times p) (time_val x) ->
            distances q = deque_append (max_points p) (distances p) (s_distance x) ->
            ttc_values q = deque_append (max_points p) (ttc_values p)
                                        (py_min (s_ttc x) 10) ->
            ego_speeds q = deque_append (max_points p) (ego_speeds p) (s_ego_speed x) ->
            cyclist_speeds q = deque_append (max_points p) (cyclist_speeds p)
                                            (s_cyclist_speed x) ->
            ok q /\ max_points q = max_points p).
  { intros q Qm Qt Qd Qc Qe Qy. split; [|exact Qm]. unfold ok.
    rewrite Qm, Qt, Qd, Qc, Qe, Qy.
    rewrite !deque_append_length by lia.
    repeat split; try lia.
    apply deque_append_Forall; [exact F | apply capped_ttc_not_above_10]. }
  match goal with |- context [if ?b then _ else _] => destruct b end.
  - unfold _update_plots. destruct (draw_ok x); apply G; reflexivity.
  - apply G; reflexivity.
Qed.

(** X12. However many samples are pushed and whichever drawing calls
    fail, the five deques of the plotter keep one common length that
    never exceeds [max_points], and no stored time to collision is above
    10. *)
Theorem plotter_deques_aligned_and_bounded (n : nat) (figure_ok : bool)
    (xs : list sample) :
  let p := updates (RealTimePlotter_init n figure_ok) xs in
  max_points p = n
  /\ length (times p) <= n
  /\ length (distances p) = length (times p)
  /\ length (ttc_values p) = length (times p)
  /\ length (ego_speeds p) = length (times p)
  /\ length (cyclist_speeds p) = length (times p)
  /\ Forall (fun v => (10 <? v)%float = false) (ttc_values p).
Proof.
  induction xs as [ | x xs IH] using rev_ind.
  - simpl. repeat split; try lia. constructor.
  - cbv zeta in IH |- *. rewrite updates_app.
    set (p := updates (RealTimePlotter_init n figure_ok) xs) in *.
    destruct IH as (M & B & IH).
    change (updates p [x]) with (fst (update p x)).
    destruct (update_invariant p x) as ((B' & R) & M').
    { rewrite M. split; [exact B | exact IH]. }
    rewrite M', M in B'. rewrite M', M. split; [reflexivity|].
    split; [exact B' | exact R].
Qed.

(** The plotter after [xs] when the figure exists and no drawing call
    fails. *)
Lemma updates_all_drawn (n : nat) (xs : list sample) :
  forallb draw_ok xs = true ->
  let last_of {A} (f : sample -> A) := skipn (length xs - n) (map f xs) in
  updates (RealTimePlotter_init n true) xs
  = {| max_points := n;
       times := last_of time_val;
       distances := last_of s_distance;
       ttc_values := last_of (fun x => py_min (s_ttc x) 10);
       ego_speeds := last_of s_ego_speed;
       cyclist_speeds := last_of s_cyclist_speed;
       plotting_enabled := true |}.
Proof.
  induction xs as [ | x xs IH] using rev_ind; intros H last_of.
  - subst last_of. reflexivity.
  - rewrite forallb_app in H. apply andb_prop in H. destruct H as [H Hx].
    simpl in Hx. rewrite andb_true_r in Hx.
    rewrite updates_app, (IH H). clear IH.
    change (updates ?p [x]) with (fst (update p x)).
    unfold update. simpl plotting_enabled. simpl negb. cbv iota zeta.
    simpl max_points. simpl times. simpl distances. simpl ttc_values.
    simpl ego_speeds. simpl cyclist_speeds.
    assert (W : forall f : sample -> float,
              deque_append n (skipn (length xs - n) (map f xs)) (f x)
              = skipn (length (xs ++ [x]) - n) (map f (xs ++ [x]))).
    { intros f. rewrite map_app. simpl map.
      rewrite <- (length_map f xs) at 1.
      rewrite (deque_append_window n (map f xs) (f x)).
      now rewrite !length_app, length_map. }
    rewrite !W.
    subst last_of. cbv beta.
    match goal with |- context [if ?b then _ else _] => destruct b end;
      [unfold _update_plots; rewrite Hx|]; reflexivity.
Qed.

(** X13. While the figure exists and every drawing call succeeds, each
    deque holds exactly the last [max_points] values pushed, oldest
    first, the times to collision capped at 10; earlier values are
    gone. *)
Theorem plotter_holds_most_recent_samples (n : nat) (xs : list sample) :
  forallb draw_ok xs = true ->
  let p := updates (RealTimePlotter_init n true) xs in
  let last_of {A} (f : sample -> A) := skipn (length xs - n) (map f xs) in
  times p = last_of time_val
  /\ distances p = last_of s_distance
  /\ ttc_values p = last_of (fun x => py_min (s_ttc x) 10)
  /\ ego_speeds p = last_of s_ego_speed
  /\ cyclist_speeds p = last_of s_cyclist_speed
  /\ plotting_enabled p = true
  /\ length (times p) = Nat.min (length xs) n.
Proof.
  intros H p last_of. subst p. rewrite (updates_all_drawn n xs H).
  simpl. repeat split. rewrite length_skipn, length_map. lia.
Qed.

Lemma plotter_holds_most_recent_samples_witness :
  let x (t : float) := {| time_val := t; s_distance := 20.0; s_ttc := 12.5;
                s_ego_speed := 8.0; s_cyclist_speed := 3.0;
                draw_ok := true |} in
  let p := updates (RealTimePlotter_init 2 true) [x 0.05%float; x 0.1%float; x 0.15%float] in
  times p = [0.1; 0.15]%float /\ ttc_values p = [10; 10]%float.
Proof.
  intros x p.
  destruct (plotter_holds_most_recent_samples 2 [x 0.05%float; x 0.1%float; x 0.15%float] eq_refl)
    as (T & _ & C & _).
  split; [exact T | exact C].
Defined.

(** X14. The plots are redrawn when the number of stored points is a
    multiple of 5.  As that number stops at [max_points], the call that
    pushes the k-th sample redraws exactly when [min(k, max_points)] is a
    multiple of 5: with the default of 200 points every fifth call up to
    the 200th, and every call from then on. *)
Theorem redraw_cadence (n : nat) (xs : list sample) (x : sample) :
  forallb draw_ok xs = true ->
  snd (update (updates (RealTimePlotter_init n true) xs) x)
  = Nat.eqb (Nat.min (S (length xs)) n mod 5) 0.
Proof.
  intros H. rewrite (updates_all_drawn n xs H).
  unfold update. simpl plotting_enabled. simpl negb. cbv iota zeta.
  simpl times. simpl max_points.
  rewrite deque_append_length
    by (rewrite length_skipn, length_map; lia).
  rewrite length_skipn, length_map.
  replace (Nat.min (S (length xs - (length xs - n))) n)
    with (Nat.min (S (length xs)) n) by lia.
  now destruct (Nat.min (S (length xs)) n mod 5 =? 0).
Qed.

Lemma redraw_cadence_witness :
  let x := {| time_val := 0.05; s_distance := 20.0; s_ttc := 12.5;
              s_ego_speed := 8.0; s_cyclist_speed := 3.0;
              draw_ok := true |} in
  snd (update (updates (RealTimePlotter_init 200 true) (repeat x 3)) x) = false
  /\ snd (update (updates (RealTimePlotter_init 200 true) (repeat x 4)) x) = true
  /\ snd (update (updates (RealTimePlotter_init 200 true) (repeat x 200)) x) = true
  /\ snd (update (updates (RealTimePlotter_init 200 true) (repeat x 201)) x) = true.
Proof.
  intros x. split; [|split; [|split]].
  - exact (redraw_cadence 200 (repeat x 3) x eq_refl).
  - exact (redraw_cadence 200 (repeat x 4) x eq_refl).
  - exact (redraw_cadence 200 (repeat x 200) x eq_refl).
  - exact (redraw_cadence 200 (repeat x 201) x eq_refl).
Defined.

(** X15. A drawing failure is final: once a redraw has failed, or when
    the figure could not be created, [plotting_enabled] is off and every
    later call of [update] leaves the plotter as it is, recording
    nothing. *)
Theorem failed_draw_stops_recording (p : RealTimePlotter) (x : sample)
    (ys : list sample) (n : nat) :
  snd (update p x) = true -> draw_ok x = false ->
  plotting_enabled (fst (update p x)) = false
  /\ updates (fst (update p x)) ys = fst (update p x)
  /\ updates (RealTimePlotter_init n false) ys = RealTimePlotter_init n false.
Proof.
  intros R D.
  assert (E : plotting_enabled (fst (update p x)) = false).
  { revert R. unfold update. destruct (plotting_enabled p); simpl negb; cbv iota;
      [|discriminate]. cbv zeta.
    match goal with |- context [if ?b then _ else _] => destruct b end;
      [|discriminate].
    intros _. unfold _update_plots. rewrite D. reflexivity. }
  split; [exact E|]. split; [now apply updates_disabled|].
  now apply updates_disabled.
Qed.

Lemma failed_draw_stops_recording_witness :
  let x ok := {| time_val := 0.05; s_distance := 20.0; s_ttc := 12.5;
                 s_ego_speed := 8.0; s_cyclist_speed := 3.0;
                 draw_ok := ok |} in
  let p := updates (RealTimePlotter_init 200 true) (repeat (x true) 4) in
  updates (fst (update p (x false))) [x true; x true]
  = fst (update p (x false)).
Proof.
  intros x p.
  exact (proj1 (proj2 (failed_draw_stops_recording p (x false) [x true; x true]
                         200 eq_refl eq_refl))).
Defined.

End PlotterWindow.

(** ** Which frames [receive_data] accepts *)

Lemma SFeqb_finite_refl (s : bool) (m : positive) (e : Z) :
  SFeqb (S754_finite s m e) (S754_finite s m e) = true.
Proof.
  unfold SFeqb, SFcompare.
  rewrite Z.compare_refl, Pos.compare_cont_refl. now destruct s.
Qed.

Lemma bool_round_by_finiteness (x : float) (s : io) :
  if is_finite x
  then exists b, bool_round x s = (Ret b, s)
  else exists e, bool_round x s = (Raise e, s)
                 /\ (e = ValueError \/ e = OverflowError).
Proof.
  unfold is_finite, is_nan, is_infinity.
  rewrite !FloatAxioms.eqb_spec, FloatAxioms.abs_spec.
  unfold bool_round, bind, lift, ret, py_round.
  change (Prim2SF infinity) with (S754_infinity false).
  destruct (Prim2SF x) as [sx | sx | | sx m e]; simpl SFabs.
  - destruct sx; simpl; now eexists.
  - destruct sx; simpl; exists OverflowError; split; auto.
  - simpl. exists ValueError. split; auto.
  - rewrite SFeqb_finite_refl. simpl. now eexists.
Qed.

(** X16. What [receive_data] checks in a frame of five doubles.  When
    the four flag values are finite numbers the frame is accepted and the
    deceleration is handed on exactly as received, whatever it is.  When
    a flag is a NaN or an infinity, [round] raises: the whole frame is
    replaced by the all-clear default and one error line is printed. *)
Theorem frame_accepted_iff_flags_finite (conn : socket)
    (d0 d1 d2 d3 d4 : float) :
  let s := with_recv (packets 5 (pack_d d0 ++ pack_d d1 ++ pack_d d2
                                 ++ pack_d d3 ++ pack_d d4)) quiet in
  if forallb is_finite [d0; d1; d3; d4]
  then exists f,
         receive_data conn s
         = (Ret f, {| sendall_script := []; recv_script := []; wire_out := [];
                      stdout := [LogRecv f] |})
         /\ Deceleration f = d2
  else exists e,
         receive_data conn s
         = (Ret default_sim_data,
            {| sendall_script := []; recv_script := []; wire_out := [];
               stdout := [LogErrRecv e] |})
         /\ (e = ValueError \/ e = OverflowError).
Proof.
  intros s. subst s. unfold receive_data, try_except.
  pose proof (recv_doubles_packets_state conn [d0; d1; d2; d3; d4] [] quiet) as R.
  cbn [length map concat app] in R. rewrite app_nil_r in R.
  rewrite (bind_Ret _ _ _ _ _ R). clear R.
  cbn [nth forallb].
  assert (Fail : forall e, e = ValueError \/ e = OverflowError ->
            exists e0,
              (if exn_eqb e socket_timeout then ret default_sim_data
               else bind (print (LogErrRecv e)) (fun _ => ret default_sim_data))
                (with_recv [] quiet)
              = (Ret default_sim_data,
                 {| sendall_script := []; recv_script := []; wire_out := [];
                    stdout := [LogErrRecv e0] |})
              /\ (e0 = ValueError \/ e0 = OverflowError)).
  { intros e [-> | ->]; eexists; (split; [reflexivity|]); auto. }
  pose proof (bool_round_by_finiteness d0 (with_recv [] quiet)) as B0.
  destruct (is_finite d0);
    [destruct B0 as (b0 & B0); rewrite (bind_Ret _ _ _ _ _ B0)
    |destruct B0 as (e & B0 & E); rewrite (bind_Raise _ _ _ _ _ B0);
     exact (Fail e E)].
  pose proof (bool_round_by_finiteness d1 (with_recv [] quiet)) as B1.
  destruct (is_finite d1);
    [destruct B1 as (b1 & B1); rewrite (bind_Ret _ _ _ _ _ B1)
    |destruct B1 as (e & B1 & E); rewrite (bind_Raise _ _ _ _ _ B1);
     exact (Fail e E)].
  pose proof (bool_round_by_finiteness d3 (with_recv [] quiet)) as B3.
  destruct (is_finite d3);
    [destruct B3 as (b3 & B3); rewrite (bind_Ret _ _ _ _ _ B3)
    |destruct B3 as (e & B3 & E); rewrite (bind_Raise _ _ _ _ _ B3);
     exact (Fail e E)].
  pose proof (bool_round_by_finiteness d4 (with_recv [] quiet)) as B4.
  destruct (is_finite d4);
    [destruct B4 as (b4 & B4); rewrite (bind_Ret _ _ _ _ _ B4)
    |destruct B4 as (e & B4 & E); rewrite (bind_Raise _ _ _ _ _ B4);
     exact (Fail e E)].
  simpl andb. cbv iota. eexists. split; reflexivity.
Qed.

(** ** What can end a run *)

Lemma eqb_zero_below (x c : float) :
  (x =? 0) = true -> (0 <? c) = true -> (x <? c) = true.
Proof.
  float_spec. change (Prim2SF 0) with (S754_zero false).
  destruct (Prim2SF x) as [s | s | | s m e]; simpl; try discriminate;
    try (destruct s; simpl; discriminate).
  intros _ H. exact H.
Qed.

(** When the local decision raises. *)
Lemma local_sim_data_raises (distance relative_velocity : float) :
  local_sim_data distance relative_velocity
  = if (distance =? 0) && (0 <? relative_velocity)
    then Raise ZeroDivisionError
    else match local_sim_data distance relative_velocity with
         | Ret sim_data => Ret sim_data
         | Raise _ => Ret default_sim_data
         end.
Proof.
  unfold local_sim_data, py_truediv.
  destruct (distance =? 0) eqn:Z.
  - rewrite (eqb_zero_below distance 15.0 Z eq_refl),
      (eqb_zero_below distance 8.0 Z eq_refl).
    now destruct (0 <? relative_velocity).
  - simpl. destruct ((distance <? 15.0) && (0 <? relative_velocity));
      [destruct (distance <? 8.0)|]; reflexivity.
Qed.

(** X17. Without a connection an iteration can fail in one way only:
    it raises ZeroDivisionError exactly when the distance read is zero
    (of either sign) while the ego vehicle is closing; for every other
    reading it completes.  The time to collision, computed first, never
    makes it fail. *)
Theorem degraded_iteration_fails_only_at_distance_zero st w s :
  connected st = None -> quit_event w = false ->
  if (w_distance w =? 0) && (0 <? w_ego_speed w - w_cyclist_speed w)
  then tick st w s = (Raise ZeroDivisionError, s)
  else exists st' hud s', tick st w s = (Ret (Continue st' hud), s').
Proof.
  intros Hc Hq. pose proof (tick_degraded st w s Hc Hq) as T.
  rewrite local_sim_data_raises in T.
  destruct ((w_distance w =? 0) && (0 <? w_ego_speed w - w_cyclist_speed w)).
  - exact T.
  - destruct (local_sim_data _ _) as [sim_data | e];
      destruct T as (st' & hud & s' & T & _); now exists st', hud, s'.
Qed.

Lemma degraded_iteration_fails_only_at_distance_zero_witness :
  let st := initial_state (AcceptFails OSError) in
  let w d := {| quit_event := false; w_distance := d;
                w_ego_speed := 3; w_cyclist_speed := 1 |} in
  tick st (w (-0.0)) quiet = (Raise ZeroDivisionError, quiet)
  /\ exists st' hud s', tick st (w 0.001) quiet = (Ret (Continue st' hud), s').
Proof.
  intros st w. split.
  - exact (degraded_iteration_fails_only_at_distance_zero st (w (-0.0)) quiet
             eq_refl eq_refl).
  - exact (degraded_iteration_fails_only_at_distance_zero st (w 0.001) quiet
             eq_refl eq_refl).
Defined.

(** X18. With a connection accepted, nothing that the socket or the
    world delivers stops the loop: every iteration before the first quit
    event completes, and the connection object is kept throughout. *)
Theorem connected_run_completes_every_iteration ws : forall st s c,
  connected st = Some c ->
  forallb (fun w => negb (quit_event w)) ws = true ->
  length (main_loop st ws s) = length ws
  /\ Forall (fun p => connected (fst p) = Some c) (main_loop st ws s).
Proof.
  induction ws as [ | w ws IH]; intros st s c Hc Hq.
  - split; [reflexivity | constructor].
  - simpl in Hq. apply andb_prop in Hq. destruct Hq as [Hw Hq].
    apply negb_true_iff in Hw.
    destruct (tick_connected st w s c Hc Hw)
      as (_ & _ & _ & _ & _ & _ & _ & st' & hud & s' & T & A & C & _).
    simpl main_loop. rewrite T.
    assert (Hc' : connected st' = Some c).
    { unfold connected in *. now rewrite A, C. }
    destruct (IH st' s' c Hc' Hq) as [L F].
    split; [simpl; now rewrite L | constructor; assumption].
Qed.

Lemma connected_run_completes_every_iteration_witness :
  let w := {| quit_event := false; w_distance := 0;
              w_ego_speed := 3; w_cyclist_speed := 1 |} in
  let s := {| sendall_script := [SendFails OSError 3];
              recv_script := [RecvBytes [x01]; RecvFails OSError];
              wire_out := []; stdout := [] |} in
  length (main_loop (initial_state AcceptOk) [w; w; w] s) = 3%nat.
Proof.
  intros w s.
  exact (proj1 (connected_run_completes_every_iteration [w; w; w]
                  (initial_state AcceptOk) s {| gettimeout := Some 0.05 |}
                  eq_refl eq_refl)).
Defined.
